(** * Dashboard query resolver and filter auditor

    A shallow embedding of the two analytical tools of
    [src/tools/dashboard-tools.ts]: [get_dashboard_queries] (identifier
    resolution over MBQL query trees) and [audit_dashboard_filters]
    (parameter-mapping audit).

    The TypeScript code is written over [any]; the embedding therefore works
    over an untyped universe of JavaScript values and spells out the
    language's own rules (truthiness, [typeof], property reads, [||], [?.])
    where the code relies on them.  A [TypeError] raised by the code is the
    [None] of the option monad. *)

From stdpp Require Import base option list sorting strings pretty gmap.

Local Open Scope string_scope.
Local Open Scope Z_scope.

(** ** JavaScript values *)

(** Numbers are the integer-valued ones (identifiers, limits, stage numbers),
    held exactly by the language when they are safe integers; fractional
    numbers are outside the model.  An object is its own
    enumerable members in enumeration order, keys pairwise distinct.
    [VUndef] is [undefined] (the value of an absent member), [VFun] an
    inherited method seen as a value. *)
#[warnings="-register-all"]
Inductive Value : Type :=
| VUndef
| VNull
| VBool (b : bool)
| VNum (n : Z)
| VStr (s : string)
| VArr (items : list Value)
| VObj (members : list (string * Value))
| VFun.

Module Js.

(** [ToBoolean]. *)
Definition truthy (v : Value) : bool :=
  match v with
  | VUndef | VNull => false
  | VBool b => b
  | VNum n => negb (n =? 0)
  | VStr s => negb (String.eqb s "")
  | VArr _ | VObj _ | VFun => true
  end.

(** [a || b]. *)
Definition or (a b : Value) : Value := if truthy a then a else b.

(** [typeof v === 'object']. *)
Definition isObjectType (v : Value) : bool :=
  match v with VNull | VArr _ | VObj _ => true | _ => false end.

(** [Array.isArray]. *)
Definition isArray (v : Value) : bool :=
  match v with VArr _ => true | _ => false end.

(** [v === 'lit'] against a string literal. *)
Definition isStr (lit : string) (v : Value) : bool :=
  match v with VStr s => String.eqb s lit | _ => false end.

(** [items[i]]: [undefined] past the end. *)
Definition at_ (i : nat) (items : list Value) : Value :=
  default VUndef (items !! i).

(** Own member of an object. *)
Fixpoint lookup (k : string) (members : list (string * Value)) : Value :=
  match members with
  | [] => VUndef
  | (k', v) :: rest => if String.eqb k' k then v else lookup k rest
  end.

(** [k in obj] for an object's own members. *)
Definition hasKey (k : string) (members : list (string * Value)) : bool :=
  bool_decide (k ∈ members.*1).

(** [v.k] on a value that is neither [null] nor [undefined].  Exact for
    the member names this program reads: of those, only [filter] is
    inherited by a non-object (an array inherits [Array.prototype.filter]). *)
Definition get (k : string) (v : Value) : Value :=
  match v with
  | VObj members => lookup k members
  | VArr _ => if String.eqb k "filter" then VFun else VUndef
  | _ => VUndef
  end.

(** [v.k] where the code dereferences [v] unguarded: a [TypeError] on
    [null] and [undefined]. *)
Definition getE (k : string) (v : Value) : option Value :=
  match v with
  | VUndef | VNull => None
  | _ => Some (get k v)
  end.

(** [v?.k]. *)
Definition getOpt (k : string) (v : Value) : Value :=
  match v with
  | VUndef | VNull => VUndef
  | _ => get k v
  end.

(** [v.map(...)], [v.forEach(...)]: defined on arrays, a [TypeError]
    ("is not a function") on every other value. *)
Definition asArray (v : Value) : option (list Value) :=
  match v with VArr items => Some items | _ => None end.

(** [obj[k] = v]: overwrite in place, or append a new member. *)
Fixpoint set (k : string) (v : Value) (members : list (string * Value))
  : list (string * Value) :=
  match members with
  | [] => [(k, v)]
  | (k', v') :: rest =>
      if String.eqb k' k then (k, v) :: rest else (k', v') :: set k v rest
  end.

(** [Number.isSafeInteger] on an integer: below [2^53] in absolute
    value. *)
Definition isSafeInteger (n : Z) : bool := (- 2 ^ 53 <? n) && (n <? 2 ^ 53).

(** Number to string, as a template literal does it for a safe integer:
    all its digits.  Beyond the safe integers the language itself rounds
    the digits, and from [1e21] on it prints an exponent; such numbers
    are no identifiers of this domain, and a statement that spells the
    digits of a number out is made for the safe integers. *)
Definition numToString (n : Z) : string := pretty n.

(** The characters of a string, each as a one-character string. *)
Fixpoint chars (s : string) : list Value :=
  match s with
  | EmptyString => []
  | String c rest => VStr (String c EmptyString) :: chars rest
  end.

(** Index keys ["0"], ["1"], ... paired with the elements. *)
Definition indexed (items : list Value) : list (string * Value) :=
  imap (λ i v, (pretty i, v)) items.

(** Own enumerable members, as [Object.entries(v)] and the spread
    [{...v}] see them: those of an object, the indexed elements of an
    array or of a string, none for any other value. *)
Definition entries (v : Value) : list (string * Value) :=
  match v with
  | VObj members => members
  | VArr items => indexed items
  | VStr s => indexed (chars s)
  | _ => []
  end.

(** [ToString], as a template literal and a computed member name apply
    it.  An array joins its elements with commas, [null] and [undefined]
    elements giving the empty string; an object gives
    ["[object Object]"], and a [TypeError] when it carries a member named
    [toString], which hides the inherited method. *)
Fixpoint toString (v : Value) : option string :=
  match v with
  | VUndef => Some "undefined"
  | VNull => Some "null"
  | VBool b => Some (if b then "true" else "false")
  | VNum n => Some (numToString n)
  | VStr s => Some s
  | VArr items =>
      (fix join (l : list Value) : option string :=
         match l with
         | [] => Some ""
         | x :: rest =>
             sx ← match x with
                  | VUndef | VNull => Some ""
                  | _ => toString x
                  end;
             match rest with
             | [] => Some sx
             | _ => srest ← join rest; Some (sx +:+ "," +:+ srest)
             end
         end) items
  | VObj members =>
      if hasKey "toString" members then None else Some "[object Object]"
  | VFun => Some "function filter() { [native code] }"
  end.

(** The equality of [Array.prototype.includes]: by value on primitives,
    by identity on arrays and objects.  The two sides compared in this
    program always come from different places of the parsed dashboard,
    so two arrays or two objects are never the same one. *)
Definition sameValueZero (a b : Value) : bool :=
  match a, b with
  | VUndef, VUndef | VNull, VNull => true
  | VBool x, VBool y => bool_decide (x = y)
  | VNum x, VNum y => bool_decide (x = y)
  | VStr x, VStr y => bool_decide (x = y)
  | _, _ => false
  end.

(** [items.includes(x)]. *)
Definition includes (items : list Value) (x : Value) : bool :=
  existsb (sameValueZero x) items.

(** [Object.keys(v)]. *)
Definition keys (v : Value) : list Value :=
  (λ kv, VStr kv.1) <$> entries v.

End Js.

(** ** Resolution tables *)

(** An entry of [fieldLookup]: the field's name and its table's qualified
    name ([undefined] if the table has none, [None] here). *)
Record FieldInfo := { fi_name : string; fi_table : option string }.

Section Resolver.

(** The two lookup tables the resolver closes over. *)
Variable tableNames : gmap Z string.
Variable fieldLookup : gmap Z FieldInfo.

(** The test [ref[0] === 'field' && typeof ref[1] === 'number'], giving
    the numeric id when it passes. *)
Definition fieldRefId (items : list Value) : option Z :=
  if Js.isStr "field" (Js.at_ 0 items)
  then match Js.at_ 1 items with VNum id => Some id | _ => None end
  else None.

(** [fieldInfo?.name || `field_${id}`]. *)
Definition fieldName (id : Z) : Value :=
  Js.or (from_option (λ fi, VStr (fi_name fi)) VUndef (fieldLookup !! id))
        (VStr ("field_" +:+ Js.numToString id)).

Fixpoint resolveFieldRef (ref : Value) : Value :=
  match ref with
  | VArr items =>
      match fieldRefId items with
      | Some id =>
          let opts := Js.at_ 2 items in
          if Js.truthy opts && Js.isObjectType opts
          then VArr [VStr "field"; fieldName id; opts]
          else VArr [VStr "field"; fieldName id]
      | None => VArr (map resolveFieldRef items)
      end
  | _ => ref
  end.

(** [tableNames[id] || `table_${id}`]. *)
Definition tableName (id : Z) : Value :=
  Js.or (from_option VStr VUndef (tableNames !! id))
        (VStr ("table_" +:+ Js.numToString id)).

(** [if (query.k) resolved.k = query.k.map(resolveFieldRef)] *)
Definition resolveList (k : string) (query : Value)
    (resolved : list (string * Value)) : option (list (string * Value)) :=
  let v := Js.get k query in
  if Js.truthy v
  then items ← Js.asArray v;
       Some (Js.set k (VArr (map resolveFieldRef items)) resolved)
  else Some resolved.

(** One element of [query.joins]: the spread of [j] with [source-table]
    and [condition] written over it. *)
Definition resolveJoin (j : Value) : option Value :=
  st ← Js.getE "source-table" j;
  let st' := match st with VNum id => tableName id | _ => st end in
  Some (VObj (Js.set "condition" (resolveFieldRef (Js.get "condition" j))
               (Js.set "source-table" st' (Js.entries j)))).

(** The loop over [Object.entries(query.expressions)], which fills a
    fresh object by assignment.  The assignment to the name [__proto__]
    creates no member: it runs the setter that the fresh object inherits
    from [Object.prototype]. *)
Definition resolveExpressions (exprs : Value) : Value :=
  VObj (foldl (λ acc kv,
                 if String.eqb kv.1 "__proto__" then acc
                 else Js.set kv.1 (resolveFieldRef kv.2) acc)
              [] (Js.entries exprs)).

Definition resolveMbql (query : Value) : option Value :=
  if negb (Js.truthy query) then Some query else
  let resolved : list (string * Value) := [] in
  let resolved :=
    match Js.get "source-table" query with
    | VNum id =>
        if Js.truthy (VNum id)
        then Js.set "source-table" (tableName id) resolved
        else resolved
    | _ => resolved
    end in
  resolved ← resolveList "aggregation" query resolved;
  resolved ← resolveList "breakout" query resolved;
  let resolved :=
    if Js.truthy (Js.get "filter" query)
    then Js.set "filter" (resolveFieldRef (Js.get "filter" query)) resolved
    else resolved in
  resolved ← resolveList "order-by" query resolved;
  resolved ←
    (if Js.truthy (Js.get "joins" query)
     then joins ← Js.asArray (Js.get "joins" query);
          joins' ← mapM resolveJoin joins;
          Some (Js.set "joins" (VArr joins') resolved)
     else Some resolved);
  resolved ← resolveList "fields" query resolved;
  let resolved :=
    if Js.truthy (Js.get "limit" query)
    then Js.set "limit" (Js.get "limit" query) resolved
    else resolved in
  let resolved :=
    if Js.truthy (Js.get "expressions" query)
    then Js.set "expressions"
           (resolveExpressions (Js.get "expressions" query)) resolved
    else resolved in
  Some (VObj resolved).

End Resolver.

(** ** Table metadata *)

(** Modelled from the spec: the client method [getTableQueryMetadata] is not
    part of the sources at hand; its result is the table description of the
    Metadata Fetcher contract (a schema, a name, a list of fields, each
    possibly missing as the code's own defaults allow), and a failed request
    is [None]. *)
Record Field := { f_id : Z; f_name : string }.

Record TableMetadata := {
  md_schema : option string;
  md_name : option string;
  md_fields : option (list Field)
}.

(** [s || d] on an optional string. *)
Definition strOr (o : option string) (d : string) : string :=
  match o with
  | Some s => if String.eqb s "" then d else s
  | None => d
  end.

(** [new Set()] and [Set.prototype.add]: insertion order, no repetition. *)
Definition setAdd `{EqDecision A} (x : A) (s : list A) : list A :=
  if bool_decide (x ∈ s) then s else s ++ [x].

Definition setFrom `{EqDecision A} (l : list A) : list A :=
  foldl (λ s x, setAdd x s) [] l.

(** A loop whose body may throw. *)
Fixpoint foldM {A B} (f : B → A → option B) (b : B) (l : list A) : option B :=
  match l with
  | [] => Some b
  | x :: rest => b' ← f b x; foldM f b' rest
  end.

(** An object of the code keyed by numbers ([Record<number, T>]), in
    insertion order; [recSet] is [r[k] = v]. *)
Fixpoint recSet {A} (k : Z) (v : A) (r : list (Z * A)) : list (Z * A) :=
  match r with
  | [] => [(k, v)]
  | (k', v') :: rest =>
      if bool_decide (k' = k) then (k, v) :: rest else (k', v') :: recSet k v rest
  end.

(** A key that is an array index is enumerated before the others. *)
Definition isIndex (k : Z) : bool := (0 <=? k) && (k <? 2 ^ 32 - 1).

Definition keyLe {A} (a b : Z * A) : Prop := a.1 ≤ b.1.

#[local] Instance keyLe_dec {A} : RelDecision (@keyLe A).
Proof. intros a b. unfold keyLe. apply _. Defined.

(** [Object.entries(r)]: index keys in ascending order, then the remaining
    keys in insertion order. *)
Definition recEntries {A} (r : list (Z * A)) : list (Z * A) :=
  merge_sort keyLe (filter (λ kv, isIndex kv.1 = true) r)
    ++ filter (λ kv, isIndex kv.1 = false) r.

(** ** The query extractor: [get_dashboard_queries] *)

(** What the fetch loop leaves behind: the requests made, in order, and the
    two objects it fills. *)
Record Tables := {
  calls : list Z;
  tableMetadata : list (Z * TableMetadata);
  tableNames : gmap Z string
}.

Section Extractor.

(** The Metadata Fetcher; [None] is a failed request. *)
Variable getTableQueryMetadata : Z → option TableMetadata.

(** [tabs.forEach(t => { tabLookup[t.id] = t.name; })].  Exact unless a
    tab id spells a member of [Object.prototype]. *)
Definition buildTabLookup (tabs : list Value) : option (list (string * Value)) :=
  foldM (λ tabLookup t,
           id ← Js.getE "id" t;
           key ← Js.toString id;
           Some (Js.set key (Js.get "name" t) tabLookup))
        [] tabs.

(** [v && typeof v === 'number'], giving the number. *)
Definition tableId (v : Value) : option Z :=
  match v with
  | VNum id => if Js.truthy v then Some id else None
  | _ => None
  end.

Definition addTableId (v : Value) (tableIds : list Z) : list Z :=
  match tableId v with
  | Some id => setAdd id tableIds
  | None => tableIds
  end.

(** The body of the first [dashcards.forEach]. *)
Definition collectCard (tableIds : list Z) (dc : Value) : option (list Z) :=
  card ← Js.getE "card" dc;
  let card := Js.or card (VObj []) in
  let query := Js.getOpt "query" (Js.get "dataset_query" card) in
  let tableIds := addTableId (Js.getOpt "source-table" query) tableIds in
  if Js.truthy (Js.getOpt "joins" query)
  then joins ← Js.asArray (Js.get "joins" query);
       foldM (λ tableIds j,
                st ← Js.getE "source-table" j;
                Some (addTableId st tableIds))
             tableIds joins
  else Some tableIds.

Definition collectTableIds (dashcards : list Value) : option (list Z) :=
  foldM collectCard [] dashcards.

(** The qualified name of a fetched table. *)
Definition qualifiedName (id : Z) (metadata : TableMetadata) : string :=
  let schema := strOr (md_schema metadata) "" in
  let tableName := strOr (md_name metadata) ("table_" +:+ Js.numToString id) in
  if String.eqb schema "" then tableName else schema +:+ "." +:+ tableName.

(** One turn of the fetch loop, [try] and [catch] included. *)
Definition fetchStep (t : Tables) (id : Z) : Tables :=
  match getTableQueryMetadata id with
  | Some metadata =>
      {| calls := calls t ++ [id];
         tableMetadata := recSet id metadata (tableMetadata t);
         tableNames := <[id := qualifiedName id metadata]> (tableNames t) |}
  | None =>
      {| calls := calls t ++ [id];
         tableMetadata := tableMetadata t;
         tableNames :=
           <[id := "unknown_table_" +:+ Js.numToString id]> (tableNames t) |}
  end.

Definition fetchTables (tableIds : list Z) : Tables :=
  foldl fetchStep {| calls := []; tableMetadata := []; tableNames := ∅ |}
        tableIds.

(** The field lookup, filled table by table in the order of
    [Object.entries(tableMetadata)]. *)
Definition addFields (names : gmap Z string)
    (fieldLookup : gmap Z FieldInfo) (entry : Z * TableMetadata)
  : gmap Z FieldInfo :=
  let fields := default [] (md_fields entry.2) in
  let tableName := names !! entry.1 in
  foldl (λ fl f, <[f_id f := {| fi_name := f_name f; fi_table := tableName |}]> fl)
        fieldLookup fields.

Definition buildFieldLookup (t : Tables) : gmap Z FieldInfo :=
  foldl (addFields (tableNames t)) ∅ (recEntries (tableMetadata t)).

(** [[...new Set(Object.values(tableNames))].sort()].  The values are
    taken in the order of [map_to_list]; the sorted outcome does not
    depend on it.  The default sort compares strings character by
    character, by character code, which is the order of [String.le] on
    the characters of the model. *)
Definition tablesUsed (names : gmap Z string) : list string :=
  merge_sort String.le (setFrom (map_to_list names).*2).

(** The summary of one dashcard: the body of [dashcards.map]. *)
Definition cardSummary (names : gmap Z string) (fieldLookup : gmap Z FieldInfo)
    (tabLookup : list (string * Value)) (dc : Value) : option Value :=
  card ← Js.getE "card" dc;
  let card := Js.or card (VObj []) in
  let datasetQuery := Js.or (Js.get "dataset_query" card) (VObj []) in
  tabName ←
    (if Js.truthy (Js.get "dashboard_tab_id" dc)
     then key ← Js.toString (Js.get "dashboard_tab_id" dc);
          Some (Js.lookup key tabLookup)
     else Some VNull);
  if negb (Js.truthy (Js.get "card_id" dc)) then
    let vizSettings := Js.or (Js.get "visualization_settings" dc) (VObj []) in
    Some (VObj [("dashcard_id", Js.get "id" dc);
                ("card_id", VNull);
                ("card_name", VStr "(virtual card)");
                ("tab", tabName);
                ("query_type", VStr "virtual");
                ("text", Js.or (Js.get "text" vizSettings) VNull)])
  else if Js.isStr "native" (Js.get "type" datasetQuery) then
    let native := Js.or (Js.get "native" datasetQuery) (VObj []) in
    Some (VObj [("dashcard_id", Js.get "id" dc);
                ("card_id", Js.get "card_id" dc);
                ("card_name", Js.or (Js.get "name" card) (VStr "(unnamed)"));
                ("tab", tabName);
                ("query_type", VStr "native");
                ("database_id", Js.get "database" datasetQuery);
                ("sql", Js.or (Js.get "query" native) VNull);
                ("template_tags",
                 if Js.truthy (Js.get "template-tags" native)
                 then VArr (Js.keys (Js.get "template-tags" native))
                 else VArr [])])
  else
    let query := Js.or (Js.get "query" datasetQuery) (VObj []) in
    mbql ← resolveMbql names fieldLookup query;
    Some (VObj [("dashcard_id", Js.get "id" dc);
                ("card_id", Js.get "card_id" dc);
                ("card_name", Js.or (Js.get "name" card) (VStr "(unnamed)"));
                ("tab", tabName);
                ("query_type", VStr "mbql");
                ("database_id", Js.get "database" datasetQuery);
                ("mbql", mbql)]).

(** What the tool reads off the dashboard before it makes any request: the
    dashcards, the tab lookup and the set of table ids. *)
Definition readDashboard (dashboard : Value)
  : option (list Value * list (string * Value) * list Z) :=
  dashcards ← Js.getE "dashcards" dashboard;
  dashcards ← Js.asArray (Js.or dashcards (VArr []));
  tabs ← Js.asArray (Js.or (Js.get "tabs" dashboard) (VArr []));
  tabLookup ← buildTabLookup tabs;
  tableIds ← collectTableIds dashcards;
  Some (dashcards, tabLookup, tableIds).

(** The whole tool, up to the final serialisation: the requests it makes
    and the object it returns, or [None] when it throws. *)
Definition get_dashboard_queries (dashboard_id : Z) (dashboard : Value)
  : list Z * option Value :=
  match readDashboard dashboard with
  | None => ([], None)
  | Some (dashcards, tabLookup, tableIds) =>
      let t := fetchTables tableIds in
      let fieldLookup := buildFieldLookup t in
      (calls t,
       cards ← mapM (cardSummary (tableNames t) fieldLookup tabLookup) dashcards;
       Some (VObj [("dashboard_id", VNum dashboard_id);
                   ("dashboard_name", Js.get "name" dashboard);
                   ("total_cards", VNum (Z.of_nat (length dashcards)));
                   ("cards", VArr cards);
                   ("tables_used", VArr (VStr <$> tablesUsed (tableNames t)))]))
  end.

End Extractor.

(** ** The filter auditor: [audit_dashboard_filters] *)

(** One entry of [cardAudit]. *)
Record CardAudit := {
  dashcard_id : Value;
  card_id : Value;
  card_name : Value;
  source_table : Value;
  is_native_query : bool;
  connected_params : list Value;
  missing_params : list Value;
  errors : list string
}.

Record AuditReport := {
  total_parameters : nat;
  parameter_ids : list Value;
  total_cards : nat;
  cards_with_issues : nat;
  all_cards : list CardAudit;
  cards_needing_attention : list CardAudit
}.

Module Audit.

(** [typeof t === 'object' && t !== null && 'stage-number' in t]. *)
Definition bearsStageNumber (t : Value) : bool :=
  match t with
  | VObj members => Js.hasKey "stage-number" members
  | _ => false
  end.

(** The body of [mappings.forEach]: the errors one mapping adds. *)
Definition checkMapping (errors : list string) (m : Value)
  : option (list string) :=
  target ← Js.getE "target" m;
  if negb (Js.truthy target) then
    pid ← Js.toString (Js.get "parameter_id" m);
    Some (errors ++ ["Parameter '" +:+ pid +:+ "' has no target"])%list
  else
    match target with
    | VArr items =>
        if Js.isStr "dimension" (Js.at_ 0 items) then
          let hasStageNumber := existsb bearsStageNumber items in
          if negb hasStageNumber then
            pid ← Js.toString (Js.get "parameter_id" m);
            Some (errors ++ ["Parameter '" +:+ pid +:+
                             "' missing stage-number (MBQL cards require this)"])%list
          else Some errors
        else Some errors
    | _ => Some errors
    end.

(** The body of [dashcards.map]. *)
Definition auditCard (parameterIds : list Value) (dc : Value)
  : option CardAudit :=
  card ← Js.getE "card" dc;
  let card := Js.or card (VObj []) in
  mappings ← Js.asArray (Js.or (Js.get "parameter_mappings" dc) (VArr []));
  connectedParams ← mapM (Js.getE "parameter_id") mappings;
  let missingParams :=
    filter (λ pid, Js.includes connectedParams pid = false) parameterIds in
  errors ← foldM checkMapping [] mappings;
  let st := Js.getOpt "source-table"
              (Js.getOpt "query" (Js.get "dataset_query" card)) in
  let sourceTable := if Js.truthy st then st else VNull in
  Some {| dashcard_id := Js.get "id" dc;
          card_id := Js.get "card_id" dc;
          card_name := Js.or (Js.get "name" card) (VStr "(virtual card)");
          source_table := sourceTable;
          is_native_query :=
            Js.isStr "native" (Js.getOpt "type" (Js.get "dataset_query" card));
          connected_params := connectedParams;
          missing_params := missingParams;
          errors := errors |}.

(** [c.missing_params.length > 0 || c.errors.length > 0]. *)
Definition hasIssues (c : CardAudit) : bool :=
  (0 <? length (missing_params c))%nat || (0 <? length (errors c))%nat.

Definition audit_dashboard_filters (dashboard : Value) : option AuditReport :=
  dashcards ← Js.getE "dashcards" dashboard;
  dashcards ← Js.asArray (Js.or dashcards (VArr []));
  parameters ← Js.asArray (Js.or (Js.get "parameters" dashboard) (VArr []));
  parameterIds ← mapM (Js.getE "id") parameters;
  cardAudit ← mapM (auditCard parameterIds) dashcards;
  let cardsWithIssues := filter (λ c, hasIssues c = true) cardAudit in
  Some {| total_parameters := length parameters;
          parameter_ids := parameterIds;
          total_cards := length dashcards;
          cards_with_issues := length cardsWithIssues;
          all_cards := cardAudit;
          cards_needing_attention := cardsWithIssues |}.

End Audit.

(** ** Predicates used in the statements *)

(** The options slot is kept exactly when it holds an array or an object. *)
Definition keepsOptions (opts : Value) : bool :=
  Js.truthy opts && Js.isObjectType opts.

(** A tree none of whose field references carries a sequence in its options
    slot. *)
Fixpoint plainOptions (v : Value) : bool :=
  match v with
  | VArr items =>
      match fieldRefId items with
      | Some _ => negb (Js.isArray (Js.at_ 2 items))
      | None => forallb plainOptions items
      end
  | _ => true
  end.

(** Modelled from the spec: the QueryTree of the data model, a scalar, a
    field reference [["field", id, options]] whose options slot is missing
    or holds [null] or an object, or a sequence headed by an operator
    keyword and followed by QueryTree children.  An object is let through
    as a leaf, as the options of a resolved reference are. *)
Fixpoint queryTree (v : Value) : bool :=
  match v with
  | VNull | VBool _ | VNum _ | VStr _ | VObj _ => true
  | VArr items =>
      match fieldRefId items with
      | Some _ =>
          match items with
          | [_; _] | [_; _; VNull] | [_; _; VObj _] => true
          | _ => false
          end
      | None =>
          match items with
          | VStr _ :: children => forallb queryTree children
          | _ => false
          end
      end
  | VUndef | VFun => false
  end.

(** ** Sample data *)

(** A sample lookup: field 10 is [CREATED_AT], field 11 has an empty name. *)
Definition sampleFields : gmap Z FieldInfo :=
  <[10 := {| fi_name := "CREATED_AT"; fi_table := Some "PUBLIC.ORDERS" |}]>
    (<[11 := {| fi_name := ""; fi_table := Some "PUBLIC.ORDERS" |}]> ∅).

Definition monthly : Value := VObj [("temporal-unit", VStr "month")].


(** ** Shapes the structured-query resolver accepts *)

(** A member the code maps over: absent (or otherwise falsy), or an array. *)
Definition listShaped (v : Value) : bool := negb (Js.truthy v) || Js.isArray v.

Definition isNullish (v : Value) : bool :=
  match v with VUndef | VNull => true | _ => false end.

(** [joins]: absent, or an array none of whose elements is [null]. *)
Definition joinsShaped (v : Value) : bool :=
  negb (Js.truthy v) ||
  match v with
  | VArr joins => forallb (λ j, negb (isNullish j)) joins
  | _ => false
  end.

Definition wellShaped (query : Value) : bool :=
  listShaped (Js.get "aggregation" query)
  && listShaped (Js.get "breakout" query)
  && listShaped (Js.get "order-by" query)
  && joinsShaped (Js.get "joins" query)
  && listShaped (Js.get "fields" query).

(** The member names the resolver carries over. *)
Definition listedMembers : list string :=
  ["source-table"; "aggregation"; "breakout"; "filter"; "order-by"; "joins";
   "fields"; "limit"; "expressions"].

(** [resolved.k = v] when a value is given, nothing otherwise. *)
Definition assign (k : string) (ov : option Value)
    (resolved : list (string * Value)) : list (string * Value) :=
  match ov with
  | Some v => Js.set k v resolved
  | None => resolved
  end.

(** The value each listed member takes in the resolved object, [None] when
    the member is left out. *)
Section MemberValues.

Variable tableNames : gmap Z string.
Variable fieldLookup : gmap Z FieldInfo.

Definition sourceTableValue (query : Value) : option Value :=
  match Js.get "source-table" query with
  | VNum id => if Js.truthy (VNum id) then Some (tableName tableNames id) else None
  | _ => None
  end.

Definition listValue (k : string) (query : Value) : option Value :=
  match Js.get k query with
  | VArr items => Some (VArr (map (resolveFieldRef fieldLookup) items))
  | _ => None
  end.

Definition copyValue (f : Value → Value) (k : string) (query : Value)
  : option Value :=
  if Js.truthy (Js.get k query) then Some (f (Js.get k query)) else None.

Definition joinsValue (query : Value) : option Value :=
  match Js.get "joins" query with
  | VArr joins => VArr <$> mapM (resolveJoin tableNames fieldLookup) joins
  | _ => None
  end.

Definition resolvedMembers (query : Value) : list (string * Value) :=
  assign "expressions"
    (copyValue (resolveExpressions fieldLookup) "expressions" query)
  (assign "limit" (copyValue id "limit" query)
  (assign "fields" (listValue "fields" query)
  (assign "joins" (joinsValue query)
  (assign "order-by" (listValue "order-by" query)
  (assign "filter" (copyValue (resolveFieldRef fieldLookup) "filter" query)
  (assign "breakout" (listValue "breakout" query)
  (assign "aggregation" (listValue "aggregation" query)
  (assign "source-table" (sourceTableValue query) [])))))))).

End MemberValues.

Definition sampleTables : gmap Z string := <[2 := "PUBLIC.ORDERS"]> ∅.

(** A structured query over table 2 joined with the unknown table 777. *)
Definition sampleQuery : list (string * Value) :=
  [("source-table", VNum 2);
   ("aggregation", VArr [VArr [VStr "count"]]);
   ("filter", VArr [VStr "="; VArr [VStr "field"; VNum 10; VNull]; VStr "active"]);
   ("joins", VArr [VObj [("alias", VStr "P"); ("source-table", VNum 777);
                         ("condition", VArr [VStr "="; VArr [VStr "field"; VNum 10; VNull];
                                             VArr [VStr "field"; VNum 999; VNull]])]]);
   ("limit", VNum 25);
   ("page", VNum 3)].

(** ** What a dashboard refers to *)

(** The structured query of a dashcard's card, if any. *)
Definition cardQuery (dc : Value) : Value :=
  Js.getOpt "query" (Js.get "dataset_query" (Js.or (Js.get "card" dc) (VObj []))).

(** The dashcard names the number [id] as its [source-table] or as the
    [source-table] of one of its joins. *)
Definition cardReferences (dc : Value) (id : Z) : Prop :=
  Js.getOpt "source-table" (cardQuery dc) = VNum id
  ∨ ∃ joins j, Js.getOpt "joins" (cardQuery dc) = VArr joins
               ∧ j ∈ joins ∧ Js.get "source-table" j = VNum id.

Definition dashcardsOf (dashboard : Value) : list Value :=
  match Js.or (Js.get "dashcards" dashboard) (VArr []) with
  | VArr dashcards => dashcards
  | _ => []
  end.

Definition references (dashboard : Value) (id : Z) : Prop :=
  ∃ dc, dc ∈ dashcardsOf dashboard ∧ cardReferences dc id.

(** The name the fetch loop binds to a table id. *)
Definition tableNameFor (fetch : Z → option TableMetadata) (id : Z) : string :=
  match fetch id with
  | Some metadata => qualifiedName id metadata
  | None => "unknown_table_" +:+ Js.numToString id
  end.

(** A dashboard of five structured cards over table 2, one of them joined
    with table 7, and a metadata service that knows table 2 only. *)
Definition structuredCard (id : Z) (query : list (string * Value)) : Value :=
  VObj [("id", VNum id); ("card_id", VNum (100 + id));
        ("card", VObj [("name", VStr "orders");
                       ("dataset_query",
                        VObj [("type", VStr "query"); ("database", VNum 1);
                              ("query", VObj query)])])].

Definition nativeCard (id : Z) (sql : Value) : Value :=
  VObj [("id", VNum id); ("card_id", VNum (100 + id));
        ("card", VObj [("name", VStr "raw");
                       ("dataset_query",
                        VObj [("type", VStr "native"); ("database", VNum 1);
                              ("native",
                               VObj [("query", sql);
                                     ("template-tags",
                                      VObj [("since", VObj [("type", VStr "date")]);
                                            ("region", VObj [])])])])])].

Definition sampleDashboard : Value :=
  VObj [("name", VStr "Sales");
        ("dashcards",
         VArr [structuredCard 1 [("source-table", VNum 2)];
               structuredCard 2 [("source-table", VNum 2)];
               structuredCard 3 [("source-table", VNum 2);
                                 ("joins", VArr [VObj [("source-table", VNum 7)]])];
               structuredCard 4 [("source-table", VNum 2)];
               structuredCard 5 [("source-table", VNum 2)];
               nativeCard 6 (VStr "select 1")])].

Definition sampleFetch (id : Z) : option TableMetadata :=
  if bool_decide (id = 2)
  then Some {| md_schema := Some "PUBLIC"; md_name := Some "ORDERS";
               md_fields := Some [{| f_id := 10; f_name := "CREATED_AT" |}] |}
  else None.

Definition zeroTableDashboard : Value :=
  VObj [("dashcards", VArr [structuredCard 1 [("source-table", VNum 0)]])].

(** One structured card over table 0 joined with table 0. *)
Definition zeroJoinQuery : list (string * Value) :=
  [("source-table", VNum 0);
   ("joins", VArr [VObj [("source-table", VNum 0);
                         ("condition",
                          VArr [VStr "="; VArr [VStr "field"; VNum 10; VNull];
                                VArr [VStr "field"; VNum 20; VNull]])]])].

Definition zeroJoinDashboard : Value :=
  VObj [("dashcards", VArr [structuredCard 1 zeroJoinQuery])].

(** ** How a dashcard is classified *)

Definition datasetQueryOf (dc : Value) : Value :=
  Js.or (Js.get "dataset_query" (Js.or (Js.get "card" dc) (VObj []))) (VObj []).

Definition nativeOf (dc : Value) : Value :=
  Js.or (Js.get "native" (datasetQueryOf dc)) (VObj []).

(** A native card: a card id is there and the query type is ["native"]. *)
Definition isNativeCard (dc : Value) : bool :=
  Js.truthy (Js.get "card_id" dc)
  && Js.isStr "native" (Js.get "type" (datasetQueryOf dc)).

(** ** Shapes and messages of the audit *)

(** Some element of the target is an object with a [stage-number] member. *)
Definition hasStageNumber (items : list Value) : Prop :=
  ∃ members, VObj members ∈ items ∧ "stage-number" ∈ members.*1.

Definition noTargetError (pid : string) : string :=
  "Parameter '" +:+ pid +:+ "' has no target".

Definition stageNumberError (pid : string) : string :=
  "Parameter '" +:+ pid +:+ "' missing stage-number (MBQL cards require this)".

(** Neither an array, nor an object, nor a function. *)
Definition isPrimitive (v : Value) : bool :=
  match v with VArr _ | VObj _ | VFun => false | _ => true end.

Definition parametersOf (dashboard : Value) : list Value :=
  match Js.or (Js.get "parameters" dashboard) (VArr []) with
  | VArr parameters => parameters
  | _ => []
  end.

Definition mappingsOf (dc : Value) : list Value :=
  match Js.or (Js.get "parameter_mappings" dc) (VArr []) with
  | VArr mappings => mappings
  | _ => []
  end.

(** A mapping entry the audit can read: not [null], with a parameter id
    that can be printed. *)
Definition mappingShaped (m : Value) : bool :=
  negb (isNullish m)
  && bool_decide (is_Some (Js.toString (Js.get "parameter_id" m))).

Definition dashcardShaped (dc : Value) : bool :=
  negb (isNullish dc)
  && match Js.or (Js.get "parameter_mappings" dc) (VArr []) with
     | VArr mappings => forallb mappingShaped mappings
     | _ => false
     end.

Definition dashboardShaped (dashboard : Value) : bool :=
  negb (isNullish dashboard)
  && match Js.or (Js.get "dashcards" dashboard) (VArr []) with
     | VArr dashcards => forallb dashcardShaped dashcards
     | _ => false
     end
  && match Js.or (Js.get "parameters" dashboard) (VArr []) with
     | VArr parameters => forallb (λ p, negb (isNullish p)) parameters
     | _ => false
     end.

Definition zeroTargetMapping : Value :=
  VObj [("parameter_id", VStr "p1"); ("target", VNum 0)].

Definition stagelessMapping : Value :=
  VObj [("parameter_id", VStr "p1");
        ("target", VArr [VStr "dimension"; VArr [VStr "field"; VNum 10; VNull]])].

Definition stagedMapping : Value :=
  VObj [("parameter_id", VStr "p1");
        ("target", VArr [VStr "dimension"; VArr [VStr "field"; VNum 10; VNull];
                         VObj [("stage-number", VNum 0)]])].

(** Two parameters, one dashcard connected to the first only. *)
Definition auditedDashboard : Value :=
  VObj [("parameters", VArr [VObj [("id", VStr "p1")]; VObj [("id", VStr "p2")]]);
        ("dashcards",
         VArr [VObj [("id", VNum 1); ("card_id", VNum 5);
                     ("parameter_mappings", VArr [stagedMapping])]])].

(** Fields 10 and 20 of an orders table. *)
Definition orderFields : gmap Z FieldInfo :=
  <[10 := {| fi_name := "STATUS"; fi_table := Some "PUBLIC.ORDERS" |}]>
    (<[20 := {| fi_name := "AMOUNT"; fi_table := Some "PUBLIC.ORDERS" |}]> ∅).

(** ** The dashboard search: [search_dashboards] *)

Module Search.

(** [hay.includes(needle)] on strings. *)
Fixpoint strIncludes (needle hay : string) : bool :=
  String.prefix needle hay ||
  match hay with
  | EmptyString => false
  | String _ rest => strIncludes needle rest
  end.

(** [items.slice(0, n)]: the first [n] elements, or all but the last
    [-n] when [n] is negative. *)
Definition slice0 {A} (n : Z) (items : list A) : list A :=
  if 0 <=? n
  then take (Z.to_nat n) items
  else take (length items - Z.to_nat (- n)) items.

(** [items.filter(f)] with a callback that may throw. *)
Fixpoint filterM {A} (f : A → option bool) (items : list A)
  : option (list A) :=
  match items with
  | [] => Some []
  | x :: rest =>
      keep ← f x;
      rest' ← filterM f rest;
      Some (if keep : bool then x :: rest' else rest')
  end.

Section WithCaseMapping.

(** [String.prototype.toLowerCase], with its Unicode case mapping. *)
Variable toLowerCase : string → string.

(** [v?.toLowerCase().includes(query.toLowerCase())]: [undefined] (here
    [false]) on a missing value, a [TypeError] on a value that is there
    and is not a string. *)
Definition fieldMatches (query : string) (v : Value) : option bool :=
  match v with
  | VUndef | VNull => Some false
  | VStr s => Some (strIncludes (toLowerCase query) (toLowerCase s))
  | _ => None
  end.

(** The callback of [dashboards.filter]; the description is looked at
    only when the name does not match. *)
Definition matches (query : string) (d : Value) : option bool :=
  name ← Js.getE "name" d;
  byName ← fieldMatches query name;
  if byName : bool then Some true
  else fieldMatches query (Js.get "description" d).

Definition search_dashboards (dashboards : list Value) (query : string)
    (limit : option Z) : option (list Value) :=
  filtered ← filterM (matches query) dashboards;
  Some (match limit with
        | Some n => if Js.truthy (VNum n) then slice0 n filtered else filtered
        | None => filtered
        end).

End WithCaseMapping.

(** Case mapping on the letters [A] to [Z], for the examples. *)
Fixpoint asciiLower (s : string) : string :=
  match s with
  | EmptyString => EmptyString
  | String c rest =>
      let n := Ascii.nat_of_ascii c in
      String (if (65 <=? n)%nat && (n <=? 90)%nat
              then Ascii.ascii_of_nat (n + 32) else c)
             (asciiLower rest)
  end.

End Search.

(** ** The tool filter options: [parseToolFilterOptions] *)

Module ToolFilters.

Inductive Mode := essential | all | write.

Record ToolFilterOptions := { mode : Mode }.

(** [argv] is [process.argv]; the options start at its third entry. *)
Definition parseToolFilterOptions (argv : list string) : ToolFilterOptions :=
  let args := drop 2 argv in
  if bool_decide ("--all" ∈ args) then {| mode := all |}
  else if bool_decide ("--write" ∈ args) then {| mode := write |}
  else if bool_decide ("--essential" ∈ args) then {| mode := essential |}
  else {| mode := essential |}.

End ToolFilters.

(** ** Text blocks: [add_text_block] *)

Module TextBlock.

(** The card data the tool builds from its arguments and hands to the
    client. *)
Definition cardData (args : Value) : Value :=
  let displayType := Js.or (Js.get "display_type" args) (VStr "text") in
  let sizeY :=
    Js.or (Js.get "size_y" args)
          (if Js.isStr "heading" displayType then VNum 1 else VNum 2) in
  VObj [("row", Js.or (Js.get "row" args) (VNum 0));
        ("col", Js.or (Js.get "col" args) (VNum 0));
        ("size_x", Js.or (Js.get "size_x" args) (VNum 18));
        ("size_y", sizeY);
        ("dashboard_tab_id", Js.get "dashboard_tab_id" args);
        ("visualization_settings",
         VObj [("virtual_card",
                VObj [("display", displayType);
                      ("visualization_settings", VObj []);
                      ("dataset_query", VObj []);
                      ("name", VNull);
                      ("archived", VBool false)]);
               ("text", Js.get "text" args)])].

End TextBlock.

(** ** Further predicates used in the statements *)

(** No sequence reached from the root through sequences is a field
    reference that still carries a number. *)
Fixpoint noFieldId (v : Value) : bool :=
  match v with
  | VArr items =>
      match fieldRefId items with
      | Some _ => false
      | None => forallb noFieldId items
      end
  | _ => true
  end.

(** The table ids a dashcard names, in the order the code meets them. *)
Definition idsOfCard (dc : Value) : list Z :=
  let ids v := match tableId v with Some id => [id] | None => [] end in
  (ids (Js.getOpt "source-table" (cardQuery dc))
   ++ match Js.getOpt "joins" (cardQuery dc) with
      | VArr joins => flat_map (λ j, ids (Js.get "source-table" j)) joins
      | _ => []
      end)%list.

(** A mapping entry that the audit lets pass without an error. *)
Definition mappingClean (m : Value) : bool :=
  Js.truthy (Js.get "target" m)
  && match Js.get "target" m with
     | VArr items =>
         negb (Js.isStr "dimension" (Js.at_ 0 items))
         || existsb Audit.bearsStageNumber items
     | _ => true
     end.

Definition sampleDashboards : list Value :=
  [VObj [("id", VNum 1); ("name", VStr "Sales Overview");
         ("description", VNull)];
   VObj [("id", VNum 2); ("name", VStr "Churn");
         ("description", VStr "Monthly SALES churn")];
   VObj [("id", VNum 3); ("name", VStr "Ops")];
   VObj [("id", VNum 4); ("description", VStr "presales funnel")]].

(** The query the extractor resolves for a structured card. *)
Definition structuredQueryOf (dc : Value) : Value :=
  Js.or (Js.get "query" (datasetQueryOf dc)) (VObj []).

(** The kind of summary a dashcard gets. *)
Definition queryTypeOf (dc : Value) : string :=
  if negb (Js.truthy (Js.get "card_id" dc)) then "virtual"
  else if isNativeCard dc then "native" else "mbql".

(** A dashcard the extractor can summarise: not [null], with a tab id that
    can be used as a member name, and, for a structured card, with a query
    the resolver accepts. *)
Definition summarisable (dc : Value) : bool :=
  negb (isNullish dc)
  && (negb (Js.truthy (Js.get "dashboard_tab_id" dc))
      || bool_decide (is_Some (Js.toString (Js.get "dashboard_tab_id" dc))))
  && (negb (Js.truthy (Js.get "card_id" dc))
      || isNativeCard dc
      || wellShaped (structuredQueryOf dc)).

(** The value is a string that contains the query, case aside. *)
Definition mentions (toLowerCase : string → string) (query : string)
    (v : Value) : Prop :=
  ∃ s before after,
    v = VStr s ∧ toLowerCase s = before +:+ toLowerCase query +:+ after.

(** A string, or nothing at all. *)
Definition isTextOrMissing (v : Value) : bool :=
  match v with VUndef | VNull | VStr _ => true | _ => false end.
(** * Properties *)

(** Structural induction reaching the elements of arrays and the member
    values of objects. *)
Lemma Value_deep_ind (P : Value → Prop) :
  P VUndef → P VNull → (∀ b, P (VBool b)) → (∀ n, P (VNum n)) →
  (∀ s, P (VStr s)) →
  (∀ items, Forall P items → P (VArr items)) →
  (∀ members, Forall (λ kv, P kv.2) members → P (VObj members)) →
  P VFun →
  ∀ v, P v.
Proof.
  intros Hu Hn Hb Hz Hs Ha Ho Hf.
  fix IH 1. intros [ | | b | n | s | items | members | ].
  - exact Hu.
  - exact Hn.
  - apply Hb.
  - apply Hz.
  - apply Hs.
  - apply Ha. induction items as [|x xs IHxs]; constructor; [apply IH | exact IHxs].
  - apply Ho. induction members as [|[k x] ms IHms]; constructor;
      [apply IH | exact IHms].
  - exact Hf.
Qed.

(** ** The node resolver *)

Section ResolverFacts.

Variable fieldLookup : gmap Z FieldInfo.

Local Abbreviation resolve := (resolveFieldRef fieldLookup).

Lemma at_map_resolve i items :
  Js.at_ i (map resolve items) = resolve (Js.at_ i items).
Proof.
  unfold Js.at_. rewrite list_lookup_fmap.
  destruct (items !! i); reflexivity.
Qed.

(** The dispatch test, read back as a statement on the first two slots. *)
Lemma fieldRefId_Some items id :
  fieldRefId items = Some id ↔
  Js.at_ 0 items = VStr "field" ∧ Js.at_ 1 items = VNum id.
Proof.
  unfold fieldRefId, Js.isStr.
  destruct (Js.at_ 0 items) as [ | | | | s | | | ]; try (split; [discriminate | intros [? ?]; discriminate]).
  destruct (String.eqb_spec s "field") as [->|Hne].
  - destruct (Js.at_ 1 items); split; try discriminate;
      try (intros [_ ?]; discriminate).
    + intros [= ->]. auto.
    + intros [_ [= ->]]. reflexivity.
  - split; [discriminate | intros [[= ?] _]; contradiction].
Qed.

Lemma fieldRefId_None items :
  fieldRefId items = None ↔
  Js.at_ 0 items ≠ VStr "field" ∨ ∀ id, Js.at_ 1 items ≠ VNum id.
Proof.
  split.
  - unfold fieldRefId. destruct (Js.isStr "field" (Js.at_ 0 items)) eqn:H0.
    + intros Hnone. right. intros id H1. rewrite H1 in Hnone. discriminate.
    + intros _. left. intros Heq. rewrite Heq in H0. discriminate.
  - intros Hor. destruct (fieldRefId items) as [id|] eqn:Hid; [|done].
    apply fieldRefId_Some in Hid as [H0 H1].
    destruct Hor as [Hne|Hne]; [done | by destruct (Hne id)].
Qed.

(** A resolved name is always a string. *)
Lemma fieldName_is_string id : ∃ s, fieldName fieldLookup id = VStr s.
Proof.
  unfold fieldName, Js.or.
  destruct (fieldLookup !! id) as [fi|]; simpl; [|eauto].
  destruct (String.eqb (fi_name fi) ""); simpl; eauto.
Qed.

Lemma fieldName_found id fi :
  fieldLookup !! id = Some fi → fi_name fi ≠ "" →
  fieldName fieldLookup id = VStr (fi_name fi).
Proof.
  intros Hfi Hne. unfold fieldName, Js.or. rewrite Hfi. simpl.
  destruct (String.eqb_spec (fi_name fi) ""); [done | reflexivity].
Qed.

Lemma fieldName_absent id :
  fieldLookup !! id = None →
  fieldName fieldLookup id = VStr ("field_" +:+ Js.numToString id).
Proof. intros Hfi. unfold fieldName. by rewrite Hfi. Qed.

Lemma resolve_field items id :
  fieldRefId items = Some id →
  resolve (VArr items) =
    VArr (VStr "field" :: fieldName fieldLookup id ::
          (if keepsOptions (Js.at_ 2 items) then [Js.at_ 2 items] else [])).
Proof.
  intros Hid. simpl. rewrite Hid. unfold keepsOptions.
  by destruct (Js.truthy _ && Js.isObjectType _).
Qed.

Lemma resolve_generic items :
  fieldRefId items = None → resolve (VArr items) = VArr (map resolve items).
Proof. intros Hid. simpl. by rewrite Hid. Qed.

(** Whatever is not a sequence passes through unchanged. *)
Lemma resolve_not_array v : Js.isArray v = false → resolve v = v.
Proof. by destruct v. Qed.

(** Resolution neither makes nor unmakes a number or the word [field]. *)
Lemma resolve_is_num v id : resolve v = VNum id → v = VNum id.
Proof.
  destruct v as [ | | | | | items | | ]; try done.
  simpl. destruct (fieldRefId items); [|done].
  by destruct (Js.truthy _ && Js.isObjectType _).
Qed.

Lemma resolve_is_str v s : resolve v = VStr s → v = VStr s.
Proof.
  destruct v as [ | | | | | items | | ]; try done.
  simpl. destruct (fieldRefId items); [|done].
  by destruct (Js.truthy _ && Js.isObjectType _).
Qed.

Lemma fieldRefId_map_resolve items :
  fieldRefId items = None → fieldRefId (map resolve items) = None.
Proof.
  intros Hnone. destruct (fieldRefId (map resolve items)) as [id|] eqn:Hid; [|done].
  apply fieldRefId_Some in Hid as [H0 H1].
  rewrite at_map_resolve in H0, H1.
  apply resolve_is_str in H0. apply resolve_is_num in H1.
  assert (fieldRefId items = Some id) by (by apply fieldRefId_Some).
  congruence.
Qed.

End ResolverFacts.

(** Resolution reaches the field references nested under generic
    operators. *)
Example resolve_nested_filter :
  resolveFieldRef orderFields
    (VArr [VStr "and";
           VArr [VStr "="; VArr [VStr "field"; VNum 10; VNull]; VStr "active"];
           VArr [VStr ">"; VArr [VStr "field"; VNum 20; VNull]; VNum 100]])
  = VArr [VStr "and";
          VArr [VStr "="; VArr [VStr "field"; VStr "STATUS"]; VStr "active"];
          VArr [VStr ">"; VArr [VStr "field"; VStr "AMOUNT"]; VNum 100]].
Proof. vm_compute. reflexivity. Qed.

(** C1, as stated, fails on a field whose name is the empty string: the
    fallback of [fieldName] replaces an empty name by the placeholder, so the
    node resolves to [["field", "field_11", opts]] and not to
    [["field", "", opts]]. *)
Lemma C1_empty_name_counterexample :
  sampleFields !! 11 = Some {| fi_name := ""; fi_table := Some "PUBLIC.ORDERS" |}
  ∧ resolveFieldRef sampleFields (VArr [VStr "field"; VNum 11; monthly])
    = VArr [VStr "field"; VStr "field_11"; monthly]
  ∧ resolveFieldRef sampleFields (VArr [VStr "field"; VNum 11; monthly])
    ≠ VArr [VStr "field"; VStr ""; monthly].
Proof. split; [|split]; [vm_compute; reflexivity .. | vm_compute; discriminate]. Qed.

(** C1 (amended): whatever the field lookup holds, a field reference keeps
    its arity.  With an options slot holding a non-null object the node
    resolves to the three-element node with that very slot (never dropped);
    with a [null] slot, with a slot that holds no object, or with no slot at
    all it resolves to the two-element node (never fabricated).  The name
    in the second slot is the one the id maps to when that name is not
    empty; an id that maps to the empty name resolves to the placeholder
    ["field_" + id], as an id that maps to nothing does (the digits spelled
    out for a safe integer). *)
Theorem C1_field_arity (fieldLookup : gmap Z FieldInfo) (id : Z) :
  ∃ name,
    (∀ opts, Js.isObjectType opts = true → opts ≠ VNull →
       resolveFieldRef fieldLookup (VArr [VStr "field"; VNum id; opts])
       = VArr [VStr "field"; VStr name; opts])
    ∧ (∀ opts, Js.isObjectType opts = false ∨ opts = VNull →
         resolveFieldRef fieldLookup (VArr [VStr "field"; VNum id; opts])
         = VArr [VStr "field"; VStr name])
    ∧ resolveFieldRef fieldLookup (VArr [VStr "field"; VNum id])
      = VArr [VStr "field"; VStr name]
    ∧ (∀ fi, fieldLookup !! id = Some fi → fi_name fi ≠ "" → name = fi_name fi)
    ∧ (∀ fi, fieldLookup !! id = Some fi → fi_name fi = "" →
         Js.isSafeInteger id = true → name = "field_" +:+ Js.numToString id)
    ∧ (fieldLookup !! id = None →
         Js.isSafeInteger id = true → name = "field_" +:+ Js.numToString id).
Proof.
  destruct (fieldName_is_string fieldLookup id) as [name Hname].
  exists name. split; [|split; [|split; [|split; [|split]]]].
  - intros opts Hobj Hnull.
    rewrite (resolve_field _ _ id), Hname by reflexivity.
    replace (keepsOptions (Js.at_ 2 [VStr "field"; VNum id; opts])) with true;
      [reflexivity|].
    by destruct opts.
  - intros opts Hnot.
    rewrite (resolve_field _ _ id), Hname by reflexivity.
    replace (keepsOptions (Js.at_ 2 [VStr "field"; VNum id; opts])) with false;
      [reflexivity|].
    destruct Hnot as [Hnot| ->]; [|reflexivity].
    change (Js.at_ 2 [VStr "field"; VNum id; opts]) with opts.
    unfold keepsOptions. rewrite Hnot. by rewrite andb_false_r.
  - by rewrite (resolve_field _ _ id), Hname by reflexivity.
  - intros fi Hfi Hne. rewrite (fieldName_found _ _ _ Hfi Hne) in Hname.
    by injection Hname.
  - intros fi Hfi Hempty _. unfold fieldName, Js.or in Hname.
    rewrite Hfi in Hname. simpl in Hname. rewrite Hempty in Hname.
    simpl in Hname. by injection Hname.
  - intros Hnone _. rewrite (fieldName_absent _ _ Hnone) in Hname.
    by injection Hname.
Qed.

Lemma C1_field_arity_witness :
  resolveFieldRef sampleFields (VArr [VStr "field"; VNum 10; monthly])
  = VArr [VStr "field"; VStr "CREATED_AT"; monthly]
  ∧ resolveFieldRef sampleFields (VArr [VStr "field"; VNum 10; VNull])
    = VArr [VStr "field"; VStr "CREATED_AT"]
  ∧ resolveFieldRef sampleFields (VArr [VStr "field"; VNum 11; monthly])
    = VArr [VStr "field"; VStr "field_11"; monthly]
  ∧ resolveFieldRef sampleFields (VArr [VStr "field"; VNum 999])
    = VArr [VStr "field"; VStr "field_999"].
Proof.
  destruct (C1_field_arity sampleFields 10) as (n10 & H3 & H2 & _ & Hn10 & _).
  destruct (C1_field_arity sampleFields 11) as (n11 & H3' & _ & _ & _ & Hn11 & _).
  destruct (C1_field_arity sampleFields 999) as (n999 & _ & _ & H1 & _ & _ & Hn999).
  assert (n10 = "CREATED_AT") as ->.
  { apply (Hn10 {| fi_name := "CREATED_AT"; fi_table := Some "PUBLIC.ORDERS" |});
      [reflexivity | discriminate]. }
  assert (n11 = "field_11") as ->.
  { apply (Hn11 {| fi_name := ""; fi_table := Some "PUBLIC.ORDERS" |});
      reflexivity. }
  assert (n999 = "field_999") as -> by (apply Hn999; reflexivity).
  split; [apply H3; [reflexivity | discriminate]|].
  split; [apply H2; by right|].
  split; [apply H3'; [reflexivity | discriminate] | exact H1].
Defined.

(** C2, as stated, fails on a four-element sequence headed by ["field"] with
    a numeric second element: the code does not look at the length, treats
    it as a field reference and returns two elements, where the claim has it
    resolved element by element with its length kept. *)
Lemma C2_long_field_counterexample :
  let node := VArr [VStr "field"; VNum 10; VNull; VStr "x"] in
  resolveFieldRef ∅ node = VArr [VStr "field"; VStr "field_10"]
  ∧ resolveFieldRef ∅ node
    ≠ VArr (resolveFieldRef ∅ <$> [VStr "field"; VNum 10; VNull; VStr "x"]).
Proof. split; [vm_compute; reflexivity | vm_compute; discriminate]. Qed.

(** C2 (amended): a sequence is treated as a field reference exactly when
    its first element is the literal ["field"] and its second element is a
    number, whatever its length; the output then has two or three elements,
    the second being the looked-up name.  Every other sequence is resolved
    element by element, its length kept. *)
Theorem C2_node_dispatch (fieldLookup : gmap Z FieldInfo) items :
  (∀ id, Js.at_ 0 items = VStr "field" → Js.at_ 1 items = VNum id →
     resolveFieldRef fieldLookup (VArr items)
       = VArr [VStr "field"; fieldName fieldLookup id]
     ∨ resolveFieldRef fieldLookup (VArr items)
       = VArr [VStr "field"; fieldName fieldLookup id; Js.at_ 2 items])
  ∧ (Js.at_ 0 items ≠ VStr "field" ∨ (∀ id, Js.at_ 1 items ≠ VNum id) →
     resolveFieldRef fieldLookup (VArr items)
       = VArr (resolveFieldRef fieldLookup <$> items)
     ∧ ∃ items', resolveFieldRef fieldLookup (VArr items) = VArr items'
                 ∧ length items' = length items
                 ∧ ∀ i, Js.at_ i items' = resolveFieldRef fieldLookup (Js.at_ i items)).
Proof.
  split.
  - intros id H0 H1.
    rewrite (resolve_field _ _ id) by (by apply fieldRefId_Some).
    destruct (keepsOptions _); auto.
  - intros Hgen. apply fieldRefId_None in Hgen.
    rewrite resolve_generic by done. split; [done|].
    eexists. split; [done|]. split; [apply length_fmap|].
    intros i. apply at_map_resolve.
Qed.

Lemma C2_node_dispatch_witness :
  resolveFieldRef sampleFields
    (VArr [VStr "="; VArr [VStr "field"; VNum 10; VNull]; VStr "active"])
  = VArr [VStr "="; VArr [VStr "field"; VStr "CREATED_AT"]; VStr "active"].
Proof.
  destruct (C2_node_dispatch sampleFields
              [VStr "="; VArr [VStr "field"; VNum 10; VNull]; VStr "active"])
    as [_ Hgen].
  destruct Hgen as [Heq _]; [left; discriminate|].
  rewrite Heq. vm_compute. reflexivity.
Defined.

(** Every QueryTree of the data model is a tree none of whose field
    references carries a sequence in its options slot. *)
Lemma queryTree_plainOptions t : queryTree t = true → plainOptions t = true.
Proof.
  induction t as [ | | | | | items IH | | ] using Value_deep_ind; try done.
  simpl. destruct (fieldRefId items) as [id|] eqn:Hid.
  - destruct items as [|x0 [|x1 [|x2 [|x3 rest]]]]; try done.
    all: by destruct x2.
  - destruct items as [|head children]; [done|].
    destruct head; try done.
    intros Hchildren. simpl. apply forallb_forall. intros x Hx.
    apply Forall_cons in IH as [_ IH]. rewrite Forall_forall in IH.
    apply IH; [by apply list_elem_of_In|].
    rewrite forallb_forall in Hchildren. by apply Hchildren.
Qed.

(** Outside the data model the resolver is not idempotent: with a sequence
    in the options slot of a field reference, the first pass copies the
    slot as it is and the second pass resolves inside it. *)
Example resolve_twice_sequence_options :
  let t := VArr [VStr "field"; VNum 10; VArr [VStr "field"; VNum 20]] in
  queryTree t = false
  ∧ resolveFieldRef ∅ t
    = VArr [VStr "field"; VStr "field_10"; VArr [VStr "field"; VNum 20]]
  ∧ resolveFieldRef ∅ (resolveFieldRef ∅ t)
    = VArr [VStr "field"; VStr "field_10"; VArr [VStr "field"; VStr "field_20"]].
Proof. split; [|split]; vm_compute; reflexivity. Qed.

(** C10: the resolver is idempotent.  On every tree in which no field
    reference carries a sequence in its options slot, and so on every
    QueryTree of the data model (whose options are an object or [null]),
    resolving twice gives what resolving once gives: a resolved reference
    has a string in its second slot and is from then on a generic sequence
    of a keyword, a name and an object. *)
Theorem C10_resolve_idempotent (fieldLookup : gmap Z FieldInfo) t :
  plainOptions t = true →
  resolveFieldRef fieldLookup (resolveFieldRef fieldLookup t)
  = resolveFieldRef fieldLookup t.
Proof.
  induction t as [ | | | | | items IH | | ] using Value_deep_ind; try done.
  intros Hplain. simpl in Hplain.
  destruct (fieldRefId items) as [id|] eqn:Hid.
  - rewrite (resolve_field _ _ id) by done.
    destruct (fieldName_is_string fieldLookup id) as [s ->].
    unfold keepsOptions.
    destruct (Js.at_ 2 items) as [ | | b | n | s' | | members | ];
      cbn [Js.truthy Js.isObjectType]; rewrite ?andb_false_r; done.
  - rewrite resolve_generic by done.
    rewrite resolve_generic by (by apply fieldRefId_map_resolve).
    f_equal. rewrite <- list_fmap_compose.
    apply list_fmap_ext. intros i x Hx. simpl.
    rewrite Forall_forall in IH. apply IH.
    + by apply list_elem_of_lookup_2 in Hx.
    + rewrite forallb_forall in Hplain. apply Hplain.
      apply list_elem_of_In. by apply list_elem_of_lookup_2 in Hx.
Qed.

Lemma C10_resolve_idempotent_witness :
  let t := VArr [VStr "and";
                 VArr [VStr "="; VArr [VStr "field"; VNum 10; monthly]; VStr "x"];
                 VArr [VStr ">"; VArr [VStr "field"; VNum 20; VNull]; VNum 100]] in
  queryTree t = true
  ∧ resolveFieldRef sampleFields (resolveFieldRef sampleFields t)
    = resolveFieldRef sampleFields t.
Proof.
  intros t. split; [reflexivity|].
  apply (C10_resolve_idempotent sampleFields t). reflexivity.
Defined.

(** ** Objects as member lists *)

Lemma lookup_set k k' v members :
  Js.lookup k (Js.set k' v members)
  = if String.eqb k' k then v else Js.lookup k members.
Proof.
  induction members as [|[k0 v0] rest IH]; simpl.
  - by destruct (String.eqb k' k).
  - destruct (String.eqb_spec k0 k') as [->|Hne]; simpl.
    + by destruct (String.eqb k' k).
    + destruct (String.eqb_spec k0 k) as [->|Hne'].
      * destruct (String.eqb_spec k' k) as [->|]; [done|reflexivity].
      * exact IH.
Qed.

Lemma keys_set k k' v members :
  k ∈ (Js.set k' v members).*1 ↔ k = k' ∨ k ∈ members.*1.
Proof.
  induction members as [|[k0 v0] rest IH]; simpl.
  - rewrite list_elem_of_singleton.
    split; [auto | intros [->|Hin]; [done | by apply elem_of_nil in Hin]].
  - destruct (String.eqb_spec k0 k') as [->|Hne]; simpl.
    + rewrite elem_of_cons. tauto.
    + rewrite !elem_of_cons, IH. tauto.
Qed.

Lemma lookup_absent k members : k ∉ members.*1 → Js.lookup k members = VUndef.
Proof.
  induction members as [|[k0 v0] rest IH]; simpl; [done|].
  intros Hnotin. apply not_elem_of_cons in Hnotin as [Hne Hrest].
  destruct (String.eqb_spec k0 k); [congruence | auto].
Qed.

(** A member read as a truthy value is a member the object has. *)
Lemma truthy_lookup_present k members :
  Js.truthy (Js.lookup k members) = true → k ∈ members.*1.
Proof.
  intros Htruthy. destruct (decide (k ∈ members.*1)) as [|Hnotin]; [done|].
  by rewrite (lookup_absent _ _ Hnotin) in Htruthy.
Qed.

Lemma lookup_assign k k' ov r :
  Js.lookup k (assign k' ov r)
  = match ov with
    | Some v => if String.eqb k' k then v else Js.lookup k r
    | None => Js.lookup k r
    end.
Proof. destruct ov; [apply lookup_set | reflexivity]. Qed.

Lemma lookup_assign_eq k ov r :
  Js.lookup k (assign k ov r) = default (Js.lookup k r) ov.
Proof. rewrite lookup_assign, String.eqb_refl. by destruct ov. Qed.

Lemma lookup_assign_ne k k' ov r :
  k' ≠ k → Js.lookup k (assign k' ov r) = Js.lookup k r.
Proof.
  intros Hne. rewrite lookup_assign.
  destruct ov; [|done]. by destruct (String.eqb_spec k' k).
Qed.

Lemma keys_assign k k' ov r :
  k ∈ (assign k' ov r).*1 ↔ (k = k' ∧ is_Some ov) ∨ k ∈ r.*1.
Proof.
  destruct ov as [v|]; simpl.
  - rewrite keys_set. split; [intros [->|]; eauto | intros [[-> _]|]; auto].
  - split; [auto | intros [[_ []]|]; done].
Qed.

(** ** The structured-query resolver *)

Lemma set_fresh k v members :
  k ∉ members.*1 → Js.set k v members = (members ++ [(k, v)])%list.
Proof.
  induction members as [|[k0 v0] rest IH]; simpl; [done|].
  intros Hnotin. apply not_elem_of_cons in Hnotin as [Hne Hrest].
  destruct (String.eqb_spec k0 k); [congruence|]. by rewrite IH.
Qed.

(** The loop over the expressions appends, in order, every resolved
    expression whose name is not [__proto__]. *)
Lemma resolveExpressions_fold fieldLookup acc entries :
  NoDup (acc.*1 ++ entries.*1)%list →
  foldl (λ acc kv,
           if String.eqb kv.1 "__proto__" then acc
           else Js.set kv.1 (resolveFieldRef fieldLookup kv.2) acc)
        acc entries
  = (acc ++ ((λ kv, (kv.1, resolveFieldRef fieldLookup kv.2))
               <$> filter (λ kv, kv.1 ≠ "__proto__") entries))%list.
Proof.
  revert acc. induction entries as [|[k v] entries IH]; intros acc Hnd; simpl.
  - by rewrite app_nil_r.
  - simpl in Hnd.
    assert (NoDup (acc.*1 ++ entries.*1)%list) as Hnd'.
    { rewrite <- Permutation_middle in Hnd. by apply NoDup_cons in Hnd as [_ ?]. }
    rewrite filter_cons. destruct (String.eqb_spec k "__proto__") as [->|Hne].
    + rewrite decide_False by (simpl; tauto). by apply IH.
    + rewrite decide_True by done. rewrite set_fresh.
      2:{ apply NoDup_app in Hnd as (_ & Hdisj & _). intros Hin.
          apply (Hdisj k Hin). apply elem_of_cons. by left. }
      rewrite IH; [by rewrite <- app_assoc|].
      rewrite fmap_app. simpl. rewrite <- app_assoc. simpl.
      by rewrite <- Permutation_middle in Hnd |- *.
Qed.

Section ResolveMbqlFacts.

Variable tableNames : gmap Z string.
Variable fieldLookup : gmap Z FieldInfo.

Lemma resolveList_shaped k query resolved :
  listShaped (Js.get k query) = true →
  resolveList fieldLookup k query resolved
  = Some (assign k (listValue fieldLookup k query) resolved).
Proof.
  unfold listShaped, resolveList, listValue.
  destruct (Js.get k query) as [ | | [] | n | s | items | members | ];
    simpl; try done.
  - destruct (n =? 0); simpl; done.
  - destruct (String.eqb s ""); simpl; done.
Qed.

Lemma resolveList_Some k query resolved r :
  resolveList fieldLookup k query resolved = Some r →
  listShaped (Js.get k query) = true.
Proof.
  unfold listShaped, resolveList.
  destruct (Js.get k query) as [ | | [] | n | s | items | members | ];
    simpl; try done.
  - destruct (n =? 0); simpl; done.
  - destruct (String.eqb s ""); simpl; done.
Qed.

Lemma resolveJoin_is_Some j :
  is_Some (resolveJoin tableNames fieldLookup j) ↔ isNullish j = false.
Proof.
  unfold resolveJoin. destruct j; simpl; split; try done;
    intros; try (by eexists); by destruct H.
Qed.

Lemma joins_shaped query :
  joinsShaped (Js.get "joins" query) = true →
  (if Js.truthy (Js.get "joins" query)
   then is_Some (joinsValue tableNames fieldLookup query)
   else True).
Proof.
  unfold joinsShaped, joinsValue.
  destruct (Js.get "joins" query) as [ | | [] | n | s | joins | members | ];
    simpl; try done.
  - destruct (n =? 0); simpl; done.
  - destruct (String.eqb s ""); simpl; done.
  - intros Hall. apply fmap_is_Some, mapM_is_Some.
    rewrite forallb_forall in Hall. apply Forall_forall. intros j Hj.
    apply resolveJoin_is_Some. apply list_elem_of_In, Hall in Hj.
    by destruct (isNullish j).
Qed.

Lemma joinsStep_shaped query resolved :
  joinsShaped (Js.get "joins" query) = true →
  (if Js.truthy (Js.get "joins" query)
   then joins ← Js.asArray (Js.get "joins" query);
        joins' ← mapM (resolveJoin tableNames fieldLookup) joins;
        Some (Js.set "joins" (VArr joins') resolved)
   else Some resolved)
  = Some (assign "joins" (joinsValue tableNames fieldLookup query) resolved).
Proof.
  intros Hshaped. pose proof (joins_shaped _ Hshaped) as Hsome.
  unfold joinsValue in *.
  destruct (Js.get "joins" query) as [ | | [] | n | s | joins | members | ];
    simpl in *; try done.
  - destruct (n =? 0); simpl in *; done.
  - destruct (String.eqb s ""); simpl in *; done.
  - destruct Hsome as [v Hv]. apply fmap_Some in Hv as (joins' & Hj & ->).
    by rewrite Hj.
Qed.

Lemma joinsStep_Some query resolved r :
  (if Js.truthy (Js.get "joins" query)
   then joins ← Js.asArray (Js.get "joins" query);
        joins' ← mapM (resolveJoin tableNames fieldLookup) joins;
        Some (Js.set "joins" (VArr joins') resolved)
   else Some resolved) = Some r →
  joinsShaped (Js.get "joins" query) = true.
Proof.
  unfold joinsShaped.
  destruct (Js.get "joins" query) as [ | | [] | n | s | joins | members | ];
    simpl; try done.
  - destruct (n =? 0); simpl; done.
  - destruct (String.eqb s ""); simpl; done.
  - intros Hsome. apply forallb_forall. intros j Hj.
    destruct (mapM _ joins) as [joins'|] eqn:Hm; [|done].
    assert (is_Some (mapM (resolveJoin tableNames fieldLookup) joins)) as Hall
      by eauto.
    rewrite mapM_is_Some, Forall_forall in Hall.
    apply list_elem_of_In, Hall in Hj. simpl in Hj.
    apply resolveJoin_is_Some in Hj. by rewrite Hj.
Qed.

(** On a well-shaped query the resolver returns, and returns the object
    assembled member by member. *)
Lemma resolveMbql_normal query :
  Js.truthy query = true → wellShaped query = true →
  resolveMbql tableNames fieldLookup query
  = Some (VObj (resolvedMembers tableNames fieldLookup query)).
Proof.
  intros Htruthy Hshaped. unfold wellShaped in Hshaped.
  repeat (apply andb_prop in Hshaped as [Hshaped ?]).
  unfold resolveMbql. rewrite Htruthy. cbn [negb].
  rewrite resolveList_shaped by done. cbn [mbind option_bind].
  rewrite resolveList_shaped by done. cbn [mbind option_bind].
  rewrite resolveList_shaped by done. cbn [mbind option_bind].
  rewrite joinsStep_shaped by done. cbn [mbind option_bind].
  rewrite resolveList_shaped by done. cbn [mbind option_bind].
  unfold resolvedMembers, copyValue, sourceTableValue.
  do 2 f_equal.
  destruct (Js.truthy (Js.get "expressions" query));
    destruct (Js.truthy (Js.get "limit" query));
    destruct (Js.truthy (Js.get "filter" query));
    destruct (Js.get "source-table" query) as [ | | | n | | | | ];
    try destruct (Js.truthy (VNum n)); reflexivity.
Qed.

(** The resolver returns on exactly the well-shaped queries. *)
Lemma resolveMbql_is_Some query :
  Js.truthy query = true →
  is_Some (resolveMbql tableNames fieldLookup query) ↔ wellShaped query = true.
Proof.
  intros Htruthy. split.
  - intros [r Hr]. unfold resolveMbql in Hr. rewrite Htruthy in Hr.
    cbn [negb] in Hr.
    destruct (resolveList _ "aggregation" _ _) as [r1|] eqn:H1; [|done].
    cbn [mbind option_bind] in Hr.
    destruct (resolveList _ "breakout" _ _) as [r2|] eqn:H2; [|done].
    cbn [mbind option_bind] in Hr.
    destruct (resolveList _ "order-by" _ _) as [r3|] eqn:H3; [|done].
    cbn [mbind option_bind] in Hr.
    match type of Hr with
    | context [if Js.truthy (Js.get "joins" query) then ?a else Some ?b] =>
        destruct (if Js.truthy (Js.get "joins" query) then a else Some b)
          as [r4|] eqn:H4; [|done]
    end.
    cbn [mbind option_bind] in Hr.
    destruct (resolveList _ "fields" _ _) as [r5|] eqn:H5; [|done].
    unfold wellShaped.
    rewrite (resolveList_Some _ _ _ _ H1), (resolveList_Some _ _ _ _ H2),
      (resolveList_Some _ _ _ _ H3), (resolveList_Some _ _ _ _ H5),
      (joinsStep_Some _ _ _ H4).
    reflexivity.
  - intros Hshaped. rewrite resolveMbql_normal by done. by eexists.
Qed.

End ResolveMbqlFacts.

Section ResolvedMembersFacts.

Variable tableNames : gmap Z string.
Variable fieldLookup : gmap Z FieldInfo.

Lemma tableName_absent id :
  tableNames !! id = None →
  tableName tableNames id = VStr ("table_" +:+ Js.numToString id).
Proof. intros Hid. unfold tableName. by rewrite Hid. Qed.

Lemma sourceTableValue_Some query v :
  sourceTableValue tableNames query = Some v →
  Js.truthy (Js.get "source-table" query) = true.
Proof.
  unfold sourceTableValue.
  destruct (Js.get "source-table" query) as [ | | | n | | | | ]; try done.
  by destruct (Js.truthy (VNum n)).
Qed.

Lemma sourceTableValue_num query id :
  Js.get "source-table" query = VNum id → id ≠ 0 →
  sourceTableValue tableNames query = Some (tableName tableNames id).
Proof.
  intros Hst Hne. unfold sourceTableValue. rewrite Hst. simpl.
  destruct (Z.eqb_spec id 0); [done | reflexivity].
Qed.

Lemma listValue_Some k query v :
  listValue fieldLookup k query = Some v →
  Js.truthy (Js.get k query) = true.
Proof. unfold listValue. by destruct (Js.get k query). Qed.

Lemma copyValue_Some f k query v :
  copyValue f k query = Some v → Js.truthy (Js.get k query) = true.
Proof. unfold copyValue. by destruct (Js.truthy (Js.get k query)). Qed.

Lemma joinsValue_Some query v :
  joinsValue tableNames fieldLookup query = Some v →
  Js.truthy (Js.get "joins" query) = true.
Proof. unfold joinsValue. by destruct (Js.get "joins" query). Qed.

(** Every member of the resolved object is a listed member that the query
    holds with a truthy value. *)
Lemma resolvedMembers_keys query k :
  k ∈ (resolvedMembers tableNames fieldLookup query).*1 →
  k ∈ listedMembers ∧ Js.truthy (Js.get k query) = true.
Proof.
  unfold resolvedMembers. rewrite !keys_assign.
  intros [[-> [v Hv]]|[[-> [v Hv]]|[[-> [v Hv]]|[[-> [v Hv]]|[[-> [v Hv]]|
          [[-> [v Hv]]|[[-> [v Hv]]|[[-> [v Hv]]|[[-> [v Hv]]|Hnil]]]]]]]]].
  - split; [apply list_elem_of_In; simpl; tauto | by eapply copyValue_Some].
  - split; [apply list_elem_of_In; simpl; tauto | by eapply copyValue_Some].
  - split; [apply list_elem_of_In; simpl; tauto | by eapply listValue_Some].
  - split; [apply list_elem_of_In; simpl; tauto | by eapply joinsValue_Some].
  - split; [apply list_elem_of_In; simpl; tauto | by eapply listValue_Some].
  - split; [apply list_elem_of_In; simpl; tauto | by eapply copyValue_Some].
  - split; [apply list_elem_of_In; simpl; tauto | by eapply listValue_Some].
  - split; [apply list_elem_of_In; simpl; tauto | by eapply listValue_Some].
  - split; [apply list_elem_of_In; simpl; tauto
           | by eapply sourceTableValue_Some].
  - by apply elem_of_nil in Hnil.
Qed.

(** What each listed member holds in the resolved object. *)
Lemma resolvedMembers_lookup query :
  let out := resolvedMembers tableNames fieldLookup query in
  Js.lookup "source-table" out
    = default VUndef (sourceTableValue tableNames query)
  ∧ (∀ k, k ∈ ["aggregation"; "breakout"; "order-by"; "fields"] →
       Js.lookup k out = default VUndef (listValue fieldLookup k query))
  ∧ Js.lookup "filter" out
    = default VUndef (copyValue (resolveFieldRef fieldLookup) "filter" query)
  ∧ Js.lookup "joins" out
    = default VUndef (joinsValue tableNames fieldLookup query)
  ∧ Js.lookup "limit" out = default VUndef (copyValue id "limit" query)
  ∧ Js.lookup "expressions" out
    = default VUndef
        (copyValue (resolveExpressions fieldLookup) "expressions" query).
Proof.
  unfold resolvedMembers.
  repeat split;
    try (intros k Hk; set_unfold; destruct Hk as [->|[->|[->|[->|[]]]]]);
    repeat first [ rewrite lookup_assign_ne by discriminate
                 | rewrite lookup_assign_eq ];
    reflexivity.
Qed.

End ResolvedMembersFacts.

(** C9, as stated, fails on a query whose [limit] is 0: the member is
    present and numeric, yet the resolved object does not carry it (the test
    [if (query.limit)] reads 0 as absent). *)
Lemma C9_zero_limit_counterexample :
  let query := [("limit", VNum 0)] in
  "limit" ∈ query.*1
  ∧ resolveMbql ∅ ∅ (VObj query) = Some (VObj [])
  ∧ Js.lookup "limit" [] ≠ Js.lookup "limit" query.
Proof.
  split; [|split].
  - simpl. apply list_elem_of_singleton. reflexivity.
  - vm_compute. reflexivity.
  - vm_compute. discriminate.
Qed.

(** An expression named [__proto__] does not reach the resolved object;
    the other expressions do. *)
Example resolveMbql_proto_expression :
  resolveMbql ∅ ∅
    (VObj [("expressions", VObj [("__proto__", VNum 1); ("b", VNum 1)])])
  = Some (VObj [("expressions", VObj [("b", VNum 1)])]).
Proof. vm_compute. reflexivity. Qed.

(** C9 (amended): for every structured query (an object whose sequence
    members are sequences and whose joins are objects) the resolver returns
    an object whose members are all listed members present on the input;
    every listed member whose value is truthy is carried under its rule
    ([source-table] when it is a non-zero number; [expressions] value by
    value, in order, for every expression whose name is not [__proto__]);
    [limit] is copied verbatim whenever it is present and not zero. *)
Theorem C9_resolved_members (tableNames : gmap Z string)
    (fieldLookup : gmap Z FieldInfo) (members : list (string * Value)) :
  wellShaped (VObj members) = true →
  ∃ out,
    resolveMbql tableNames fieldLookup (VObj members) = Some (VObj out)
    ∧ (∀ k, k ∈ out.*1 → k ∈ members.*1 ∧ k ∈ listedMembers)
    ∧ (∀ id, Js.lookup "source-table" members = VNum id → id ≠ 0 →
         Js.lookup "source-table" out = tableName tableNames id)
    ∧ (∀ k items, k ∈ ["aggregation"; "breakout"; "order-by"; "fields"] →
         Js.lookup k members = VArr items →
         Js.lookup k out = VArr (resolveFieldRef fieldLookup <$> items))
    ∧ (Js.truthy (Js.lookup "filter" members) = true →
         Js.lookup "filter" out
         = resolveFieldRef fieldLookup (Js.lookup "filter" members))
    ∧ (∀ joins, Js.lookup "joins" members = VArr joins →
         ∃ joins', mapM (resolveJoin tableNames fieldLookup) joins = Some joins'
                   ∧ Js.lookup "joins" out = VArr joins')
    ∧ (Js.truthy (Js.lookup "expressions" members) = true →
         Js.lookup "expressions" out
         = resolveExpressions fieldLookup (Js.lookup "expressions" members))
    ∧ (∀ exprs, Js.lookup "expressions" members = VObj exprs →
         NoDup exprs.*1 →
         Js.lookup "expressions" out
         = VObj ((λ kv, (kv.1, resolveFieldRef fieldLookup kv.2))
                   <$> filter (λ kv, kv.1 ≠ "__proto__") exprs))
    ∧ (Js.truthy (Js.lookup "limit" members) = true →
         Js.lookup "limit" out = Js.lookup "limit" members)
    ∧ (∀ n, Js.lookup "limit" members = VNum n → n ≠ 0 →
         Js.lookup "limit" out = VNum n).
Proof.
  intros Hshaped.
  exists (resolvedMembers tableNames fieldLookup (VObj members)).
  split; [by apply resolveMbql_normal|].
  destruct (resolvedMembers_lookup tableNames fieldLookup (VObj members))
    as (Hst & Hlist & Hfilter & Hjoins & Hlimit & Hexpr).
  assert (Js.truthy (Js.lookup "limit" members) = true →
          Js.lookup "limit" (resolvedMembers tableNames fieldLookup (VObj members))
          = Js.lookup "limit" members) as Hlim.
  { intros Ht. rewrite Hlimit. unfold copyValue. simpl Js.get. by rewrite Ht. }
  split; [|repeat split].
  - intros k Hk. apply resolvedMembers_keys in Hk as [Hl Ht].
    split; [by apply truthy_lookup_present | done].
  - intros id Hid Hne. rewrite Hst.
    by rewrite (sourceTableValue_num _ _ id).
  - intros k items Hk Hitems. rewrite (Hlist k Hk).
    unfold listValue. simpl Js.get. by rewrite Hitems.
  - intros Ht. rewrite Hfilter. unfold copyValue. simpl Js.get. by rewrite Ht.
  - intros joins Hj. rewrite Hjoins.
    pose proof (joins_shaped tableNames fieldLookup (VObj members)) as Hsome.
    unfold wellShaped in Hshaped.
    repeat (apply andb_prop in Hshaped as [Hshaped ?]).
    specialize (Hsome ltac:(done)). revert Hsome.
    unfold joinsValue. simpl Js.get. rewrite Hj. simpl.
    intros [v Hv]. apply fmap_Some in Hv as (joins' & Hm & ->).
    exists joins'. by rewrite Hm.
  - intros Ht. rewrite Hexpr. unfold copyValue. simpl Js.get. by rewrite Ht.
  - intros exprs Hexprs Hnd. rewrite Hexpr. unfold copyValue. simpl Js.get.
    rewrite Hexprs. simpl. unfold resolveExpressions. simpl.
    by rewrite resolveExpressions_fold.
  - exact Hlim.
  - intros n Hn Hne. rewrite Hlim; [done|]. rewrite Hn. simpl.
    by destruct (Z.eqb_spec n 0).
Qed.

Lemma C9_resolved_members_witness :
  ∃ out,
    resolveMbql sampleTables sampleFields (VObj sampleQuery) = Some (VObj out)
    ∧ Js.lookup "limit" out = VNum 25
    ∧ Js.lookup "source-table" out = VStr "PUBLIC.ORDERS"
    ∧ "page" ∉ out.*1.
Proof.
  destruct (C9_resolved_members sampleTables sampleFields sampleQuery)
    as (out & Hout & Hkeys & Hst & _ & _ & _ & _ & _ & _ & Hlimit);
    [vm_compute; reflexivity|].
  exists out. split; [exact Hout|]. split; [|split].
  - apply Hlimit; [reflexivity | discriminate].
  - rewrite (Hst 2); [vm_compute; reflexivity | reflexivity | discriminate].
  - intros Hpage. apply Hkeys in Hpage as [_ Hlisted].
    apply list_elem_of_In in Hlisted. simpl in Hlisted.
    intuition discriminate.
Defined.

(** ** Sets and number-keyed objects *)

Section SetFacts.

Context `{EqDecision A}.

Lemma elem_of_setAdd (x y : A) s : x ∈ setAdd y s ↔ x = y ∨ x ∈ s.
Proof.
  unfold setAdd. case_bool_decide as Hin.
  - split; [auto | intros [->|]; done].
  - rewrite elem_of_app, list_elem_of_singleton. tauto.
Qed.

Lemma NoDup_setAdd (y : A) s : NoDup s → NoDup (setAdd y s).
Proof.
  intros Hs. unfold setAdd. case_bool_decide as Hin; [done|].
  apply NoDup_app. split; [done|]. split; [|apply NoDup_singleton].
  intros x Hx Hy. apply list_elem_of_singleton in Hy as ->. done.
Qed.

Lemma setFrom_spec (l : list A) :
  NoDup (setFrom l) ∧ ∀ x, x ∈ setFrom l ↔ x ∈ l.
Proof.
  unfold setFrom.
  assert (∀ s, NoDup s →
            NoDup (foldl (λ s x, setAdd x s) s l)
            ∧ ∀ x, x ∈ foldl (λ s x, setAdd x s) s l ↔ x ∈ s ∨ x ∈ l) as Hgen.
  { induction l as [|y l IH]; intros s Hs; simpl.
    - split; [done|]. intros x. rewrite elem_of_nil. tauto.
    - destruct (IH (setAdd y s) (NoDup_setAdd y s Hs)) as [Hnd Hmem].
      split; [done|]. intros x.
      rewrite Hmem, elem_of_setAdd, elem_of_cons. tauto. }
  destruct (Hgen [] (NoDup_nil_2)) as [Hnd Hmem].
  split; [done|]. intros x. rewrite Hmem, elem_of_nil. tauto.
Qed.

End SetFacts.

(** An invariant carried through a loop that may throw. *)
Lemma foldM_invariant {A B} (f : B → A → option B) (P : B → list A → Prop) l :
  ∀ b r,
    foldM f b l = Some r →
    P b [] →
    (∀ b' x b'' seen, x ∈ l → P b' seen → f b' x = Some b'' → P b'' (seen ++ [x])%list) →
    P r l.
Proof.
  intros b r Hfold0 Hinit Hstep. revert Hfold0.
  assert (∀ seen rest b', (seen ++ rest)%list = l → P b' seen →
            foldM f b' rest = Some r → P r l) as Hgen.
  { intros seen rest. revert seen.
    induction rest as [|x rest IH]; intros seen b' Heq Hp Hfold; simpl in Hfold.
    - rewrite app_nil_r in Heq. subst. by injection Hfold as ->.
    - destruct (f b' x) as [b''|] eqn:Hf; [|done]. simpl in Hfold.
      apply (IH (seen ++ [x])%list b''); [by rewrite <- app_assoc | | done].
      eapply Hstep; [|done..]. rewrite <- Heq.
      apply elem_of_app. right. apply elem_of_cons. by left. }
  by apply (Hgen [] l b).
Qed.

(** ** Collecting the table ids *)

Lemma tableId_Some v id : tableId v = Some id ↔ v = VNum id ∧ id ≠ 0.
Proof.
  destruct v as [ | | | n | | | | ]; simpl;
    try (split; [discriminate | intros [? _]; discriminate]).
  destruct (Z.eqb_spec n 0) as [->|Hne]; simpl.
  - split; [discriminate | intros [[= <-] ?]; done].
  - split; [intros [= ->]; done | intros [[= ->] _]; done].
Qed.

Lemma addTableId_spec v tableIds :
  (NoDup tableIds → NoDup (addTableId v tableIds))
  ∧ ∀ x, x ∈ addTableId v tableIds ↔ (v = VNum x ∧ x ≠ 0) ∨ x ∈ tableIds.
Proof.
  unfold addTableId. destruct (tableId v) as [id|] eqn:Hid.
  - apply tableId_Some in Hid as [-> Hne]. split; [apply NoDup_setAdd|].
    intros x. rewrite elem_of_setAdd.
    split; [intros [->|]; auto | intros [[[= ->] _]|]; auto].
  - split; [done|]. intros x. split; [auto|]. intros [[-> Hne]|]; [|done].
    assert (tableId (VNum x) = Some x) as Hsome by (by apply tableId_Some).
    congruence.
Qed.

Lemma getOpt_truthy k v :
  Js.truthy (Js.getOpt k v) = true → Js.get k v = Js.getOpt k v.
Proof. by destruct v. Qed.

Lemma joins_loop_spec joins tableIds r :
  foldM (λ tableIds j, st ← Js.getE "source-table" j; Some (addTableId st tableIds))
        tableIds joins = Some r →
  (NoDup tableIds → NoDup r)
  ∧ ∀ x, x ∈ r ↔
         x ∈ tableIds
         ∨ (x ≠ 0 ∧ ∃ j, j ∈ joins ∧ Js.get "source-table" j = VNum x).
Proof.
  intros Hfold.
  apply (foldM_invariant _
           (λ b seen, (NoDup tableIds → NoDup b)
                      ∧ ∀ x, x ∈ b ↔
                             x ∈ tableIds
                             ∨ (x ≠ 0 ∧ ∃ j, j ∈ seen
                                             ∧ Js.get "source-table" j = VNum x))
           _ _ _ Hfold).
  - split; [done|]. intros x. split; [auto|].
    intros [|[_ (j & Hj & _)]]; [done | by apply elem_of_nil in Hj].
  - intros b j b' seen _ [Hnd Hmem] Hstep.
    destruct (Js.getE "source-table" j) as [st|] eqn:Hst; [|done].
    simpl in Hstep. injection Hstep as <-.
    destruct (addTableId_spec st b) as [Hnd' Hmem'].
    split; [auto|]. intros x. rewrite Hmem', Hmem.
    assert (st = Js.get "source-table" j) as ->
      by (destruct j; simpl in Hst |- *; congruence).
    split.
    + intros [[Heq Hne]|[|[Hne (j' & Hj' & Hst')]]]; auto.
      * right. split; [done|]. exists j. split; [|done].
        apply elem_of_app. right. by apply list_elem_of_singleton.
      * right. split; [done|]. exists j'. split; [|done].
        apply elem_of_app. by left.
    + intros [|[Hne (j' & Hj' & Hst')]]; auto.
      apply elem_of_app in Hj' as [Hj'|Hj'].
      * right. right. eauto.
      * apply list_elem_of_singleton in Hj' as ->. auto.
Qed.

Lemma collectCard_spec tableIds dc r :
  collectCard tableIds dc = Some r →
  (NoDup tableIds → NoDup r)
  ∧ ∀ x, x ∈ r ↔ x ∈ tableIds ∨ (x ≠ 0 ∧ cardReferences dc x).
Proof.
  unfold collectCard, cardReferences, cardQuery.
  destruct (Js.getE "card" dc) as [card|] eqn:Hcard; [|done]. simpl.
  assert (card = Js.get "card" dc) as ->
    by (destruct dc; simpl in Hcard |- *; congruence).
  set (query := Js.getOpt "query" _).
  destruct (addTableId_spec (Js.getOpt "source-table" query) tableIds)
    as [Hnd0 Hmem0].
  destruct (Js.truthy (Js.getOpt "joins" query)) eqn:Hjoins.
  - rewrite (getOpt_truthy _ _ Hjoins).
    destruct (Js.getOpt "joins" query) as [ | | | | | joins | | ] eqn:Hj;
      try done.
    simpl. intros Hfold. apply joins_loop_spec in Hfold as [Hnd Hmem].
    split; [auto|]. intros x. rewrite Hmem, Hmem0. split.
    + intros [[[Hst Hne]|]|[Hne (j & Hin & Hst)]]; auto.
      right. split; [done|]. right. exists joins, j. done.
    + intros [|[Hne [Hst|(joins' & j & [= <-] & Hin & Hst)]]]; auto.
      right. split; [done|]. eauto.
  - intros [= <-]. split; [done|]. intros x. rewrite Hmem0. split.
    + intros [[Hst Hne]|]; auto.
    + intros [|[Hne [Hst|(joins' & j & Hj & _)]]]; auto.
      by rewrite Hj in Hjoins.
Qed.

Lemma collectTableIds_spec dashcards tableIds :
  collectTableIds dashcards = Some tableIds →
  NoDup tableIds
  ∧ ∀ x, x ∈ tableIds ↔ x ≠ 0 ∧ ∃ dc, dc ∈ dashcards ∧ cardReferences dc x.
Proof.
  intros Hfold. unfold collectTableIds in Hfold.
  apply (foldM_invariant _
           (λ b seen, NoDup b
                      ∧ ∀ x, x ∈ b ↔
                             x ≠ 0 ∧ ∃ dc, dc ∈ seen ∧ cardReferences dc x)
           _ _ _ Hfold).
  - split; [apply NoDup_nil_2|]. intros x. split.
    + intros Hx. by apply elem_of_nil in Hx.
    + intros [_ (dc & Hdc & _)]. by apply elem_of_nil in Hdc.
  - intros b dc b' seen _ [Hnd Hmem] Hstep.
    apply collectCard_spec in Hstep as [Hnd' Hmem'].
    split; [auto|]. intros x. rewrite Hmem', Hmem. split.
    + intros [[Hne (dc' & Hin & Href)]|[Hne Href]].
      * split; [done|]. exists dc'. split; [|done]. apply elem_of_app. by left.
      * split; [done|]. exists dc. split; [|done].
        apply elem_of_app. right. by apply list_elem_of_singleton.
    + intros [Hne (dc' & Hin & Href)].
      apply elem_of_app in Hin as [Hin|Hin].
      * left. eauto.
      * apply list_elem_of_singleton in Hin as ->. auto.
Qed.

(** ** The fetch loop *)

Lemma elem_of_recSet {A} (k k' : Z) (v v' : A) r :
  (k, v) ∈ recSet k' v' r → (k, v) = (k', v') ∨ (k, v) ∈ r.
Proof.
  induction r as [|[k0 v0] rest IH]; simpl.
  - intros Hin. apply list_elem_of_singleton in Hin. auto.
  - case_bool_decide as Hk.
    + rewrite !elem_of_cons. tauto.
    + rewrite !elem_of_cons. intros [|Hin]; [auto|].
      apply IH in Hin. tauto.
Qed.

Lemma elem_of_recEntries {A} (x : Z * A) r : x ∈ recEntries r → x ∈ r.
Proof.
  unfold recEntries. rewrite elem_of_app. intros [Hin|Hin].
  - rewrite merge_sort_Permutation in Hin.
    by apply list_elem_of_filter in Hin as [_ ?].
  - by apply list_elem_of_filter in Hin as [_ ?].
Qed.

Section FetchFacts.

Variable fetch : Z → option TableMetadata.

Lemma fetchStep_calls t id : calls (fetchStep fetch t id) = (calls t ++ [id])%list.
Proof. unfold fetchStep. by destruct (fetch id). Qed.

Lemma fetchStep_tableNames t id :
  tableNames (fetchStep fetch t id)
  = <[id := tableNameFor fetch id]> (tableNames t).
Proof. unfold fetchStep, tableNameFor. by destruct (fetch id). Qed.

Lemma fetchStep_tableMetadata t id k md :
  (k, md) ∈ tableMetadata (fetchStep fetch t id) →
  (k = id ∧ fetch id = Some md) ∨ (k, md) ∈ tableMetadata t.
Proof.
  unfold fetchStep. destruct (fetch id) as [metadata|] eqn:Hf; simpl; [|auto].
  intros Hin. apply elem_of_recSet in Hin as [[= -> ->]|]; auto.
Qed.

Lemma fetch_loop_spec tableIds t :
  let t' := foldl (fetchStep fetch) t tableIds in
  calls t' = (calls t ++ tableIds)%list
  ∧ (∀ id, tableNames t' !! id
           = if bool_decide (id ∈ tableIds)
             then Some (tableNameFor fetch id)
             else tableNames t !! id)
  ∧ (∀ k md, (k, md) ∈ tableMetadata t' →
             (k ∈ tableIds ∧ fetch k = Some md) ∨ (k, md) ∈ tableMetadata t).
Proof.
  revert t. induction tableIds as [|id rest IH]; intros t; cbn [foldl].
  - split; [by rewrite app_nil_r|]. split; [|auto].
    intros id. case_bool_decide as Hin; [by apply elem_of_nil in Hin | done].
  - destruct (IH (fetchStep fetch t id)) as (Hcalls & Hnames & Hmeta).
    split; [|split].
    + rewrite Hcalls, fetchStep_calls, <- app_assoc. reflexivity.
    + intros k. rewrite Hnames, fetchStep_tableNames.
      destruct (decide (k ∈ rest)) as [Hin|Hnotin].
      * rewrite !bool_decide_eq_true_2; [done | | done].
        apply elem_of_cons. by right.
      * rewrite (bool_decide_eq_false_2 (k ∈ rest)) by done.
        destruct (decide (id = k)) as [->|Hne].
        -- rewrite lookup_insert_eq, bool_decide_eq_true_2; [done|].
           apply elem_of_cons. by left.
        -- rewrite lookup_insert_ne by done.
           rewrite bool_decide_eq_false_2; [done|].
           rewrite elem_of_cons. intros [->|]; done.
    + intros k md Hin. apply Hmeta in Hin as [[Hk Hf]|Hin].
      * left. split; [|done]. apply elem_of_cons. by right.
      * apply fetchStep_tableMetadata in Hin as [[-> Hf]|]; [|by right].
        left. split; [|done]. apply elem_of_cons. by left.
Qed.

(** The fetch loop makes one request per id handed to it, in order, and
    binds every one of them to the name its own request decides. *)
Lemma fetchTables_spec tableIds :
  let t := fetchTables fetch tableIds in
  calls t = tableIds
  ∧ (∀ id, tableNames t !! id
           = if bool_decide (id ∈ tableIds)
             then Some (tableNameFor fetch id) else None)
  ∧ (∀ k md, (k, md) ∈ tableMetadata t → k ∈ tableIds ∧ fetch k = Some md).
Proof.
  destruct (fetch_loop_spec tableIds
              {| calls := []; tableMetadata := []; tableNames := ∅ |})
    as (Hcalls & Hnames & Hmeta).
  split; [exact Hcalls|]. split.
  - intros id. unfold fetchTables. rewrite Hnames. simpl.
    by rewrite lookup_empty.
  - intros k md Hin. apply Hmeta in Hin as [|Hin]; [done|].
    by apply elem_of_nil in Hin.
Qed.

(** Every entry of the field lookup comes from a field list that some
    request returned. *)
Lemma addFields_spec names fieldLookup entry fid fi :
  addFields names fieldLookup entry !! fid = Some fi →
  fieldLookup !! fid = Some fi
  ∨ ∃ f, f ∈ default [] (md_fields entry.2)
         ∧ f_id f = fid ∧ fi_name fi = f_name f
         ∧ fi_table fi = names !! entry.1.
Proof.
  unfold addFields. generalize (default [] (md_fields entry.2)) as fields.
  intros fields. revert fieldLookup.
  induction fields as [|f fields IH]; intros fieldLookup; simpl; [auto|].
  intros Hl. apply IH in Hl as [Hl|(f' & Hin & ?)].
  - destruct (decide (f_id f = fid)) as [<-|Hne].
    + rewrite lookup_insert_eq in Hl. injection Hl as <-.
      right. exists f. split; [apply elem_of_cons; by left | done].
    + rewrite lookup_insert_ne in Hl by done. by left.
  - right. exists f'. split; [apply elem_of_cons; by right | done].
Qed.

Lemma buildFieldLookup_spec tableIds fid fi :
  buildFieldLookup (fetchTables fetch tableIds) !! fid = Some fi →
  ∃ tid md f, tid ∈ tableIds ∧ fetch tid = Some md
              ∧ f ∈ default [] (md_fields md)
              ∧ f_id f = fid ∧ fi_name fi = f_name f
              ∧ fi_table fi = Some (qualifiedName tid md).
Proof.
  unfold buildFieldLookup.
  destruct (fetchTables_spec tableIds) as (_ & Hnames & Hmeta).
  set (t := fetchTables fetch tableIds) in *.
  assert (∀ entries fl0,
            (∀ e, e ∈ entries → e ∈ tableMetadata t) →
            foldl (addFields (tableNames t)) fl0 entries !! fid = Some fi →
            fl0 !! fid = Some fi
            ∨ ∃ tid md f, tid ∈ tableIds ∧ fetch tid = Some md
                          ∧ f ∈ default [] (md_fields md)
                          ∧ f_id f = fid ∧ fi_name fi = f_name f
                          ∧ fi_table fi = Some (qualifiedName tid md)) as Hgen.
  { induction entries as [|[tid md] entries IH]; intros fl0 Hsub; simpl; [auto|].
    intros Hl.
    assert (∀ e, e ∈ entries → e ∈ tableMetadata t) as Hsub'.
    { intros e He. apply Hsub, elem_of_cons. by right. }
    destruct (IH _ Hsub' Hl) as [Hl'|Hr]; [|by right].
    apply addFields_spec in Hl' as [|(f & Hin & Hid & Hname & Htable)];
      [by left|].
    right. simpl in *.
    destruct (Hmeta tid md) as [Htid Hfetch].
    { apply Hsub, elem_of_cons. by left. }
    exists tid, md, f. repeat split; try done.
    rewrite Htable, Hnames, bool_decide_eq_true_2 by done.
    unfold tableNameFor. by rewrite Hfetch. }
  intros Hl.
  destruct (Hgen (recEntries (tableMetadata t)) ∅) as [Hl'|Hr];
    [intros e; apply elem_of_recEntries | exact Hl | | exact Hr].
  by rewrite lookup_empty in Hl'.
Qed.

End FetchFacts.

(** ** The tables used *)

Lemma tablesUsed_spec (names : gmap Z string) :
  StronglySorted String.le (tablesUsed names)
  ∧ NoDup (tablesUsed names)
  ∧ ∀ x, x ∈ tablesUsed names ↔ ∃ id, names !! id = Some x.
Proof.
  unfold tablesUsed.
  destruct (setFrom_spec (map_to_list names).*2) as [Hnd Hmem].
  split; [apply StronglySorted_merge_sort; apply _|].
  split; [by rewrite merge_sort_Permutation|].
  intros x. rewrite merge_sort_Permutation, Hmem, list_elem_of_fmap. split.
  - intros ([id y] & -> & Hin). exists id. by apply elem_of_map_to_list in Hin.
  - intros (id & Hid). exists (id, x). split; [done|].
    by apply elem_of_map_to_list.
Qed.

(** ** The extractor as a whole *)

Lemma or_object_truthy v : Js.truthy (Js.or v (VObj [])) = true.
Proof. unfold Js.or. by destruct (Js.truthy v) eqn:Hv. Qed.

Section ExtractorFacts.

Variable fetch : Z → option TableMetadata.

Lemma readDashboard_spec dashboard dashcards tabLookup tableIds :
  readDashboard dashboard = Some (dashcards, tabLookup, tableIds) →
  dashcardsOf dashboard = dashcards
  ∧ collectTableIds dashcards = Some tableIds.
Proof.
  unfold readDashboard, dashcardsOf. intros Hread.
  destruct (Js.getE "dashcards" dashboard) as [dcs|] eqn:Hdcs; [|done].
  assert (dcs = Js.get "dashcards" dashboard) as ->
    by (destruct dashboard; simpl in Hdcs |- *; congruence).
  simpl in Hread.
  destruct (Js.or (Js.get "dashcards" dashboard) (VArr []))
    as [ | | | | | dcs' | | ]; try done.
  simpl in Hread.
  destruct (Js.asArray _) as [tabs|]; [|done]. simpl in Hread.
  destruct (buildTabLookup tabs) as [tl|]; [|done]. simpl in Hread.
  destruct (collectTableIds dcs') as [ids|] eqn:Hids; [|done].
  simpl in Hread. by injection Hread as -> -> ->.
Qed.

(** Whether a dashcard can be summarised does not depend on the tables. *)
Lemma cardSummary_is_Some names fl names' fl' tabLookup dc :
  is_Some (cardSummary names fl tabLookup dc) →
  is_Some (cardSummary names' fl' tabLookup dc).
Proof.
  unfold cardSummary.
  destruct (Js.getE "card" dc) as [card|]; [|done]. simpl.
  match goal with
  | |- context [if Js.truthy (Js.get "dashboard_tab_id" dc) then ?a else ?b] =>
      destruct (if Js.truthy (Js.get "dashboard_tab_id" dc) then a else b)
        as [tabName|]; [|done]
  end.
  simpl.
  destruct (negb (Js.truthy (Js.get "card_id" dc))); [done|].
  destruct (Js.isStr "native" _); [done|].
  set (query := Js.or (Js.get "query" _) (VObj [])).
  intros Hsome.
  assert (is_Some (resolveMbql names fl query)) as Hq.
  { destruct (resolveMbql names fl query); [by eexists | by destruct Hsome]. }
  apply resolveMbql_is_Some in Hq; [|apply or_object_truthy].
  rewrite (resolveMbql_normal names' fl') by (done || apply or_object_truthy).
  by eexists.
Qed.

Lemma requests_spec dashboard_id dashboard :
  match readDashboard dashboard with
  | Some (dashcards, _, tableIds) =>
      (get_dashboard_queries fetch dashboard_id dashboard).1 = tableIds
  | None => (get_dashboard_queries fetch dashboard_id dashboard) = ([], None)
  end.
Proof.
  unfold get_dashboard_queries.
  destruct (readDashboard dashboard) as [[[dashcards tabLookup] tableIds]|];
    [|done].
  simpl. by destruct (fetchTables_spec fetch tableIds) as (-> & _).
Qed.

End ExtractorFacts.

(** C4, as stated, fails on a card whose [source-table] is the number 0: the
    dashboard refers to table id 0, the tool returns, and no request is made
    for it (the test [query['source-table'] && ...] reads 0 as absent). *)
Lemma C4_zero_table_counterexample :
  references zeroTableDashboard 0
  ∧ is_Some (get_dashboard_queries sampleFetch 1 zeroTableDashboard).2
  ∧ 0 ∉ (get_dashboard_queries sampleFetch 1 zeroTableDashboard).1.
Proof.
  split; [|split].
  - exists (structuredCard 1 [("source-table", VNum 0)]).
    split; [apply list_elem_of_singleton; reflexivity | left; reflexivity].
  - vm_compute. by eexists.
  - vm_compute. apply not_elem_of_nil.
Qed.

(** C4 (amended): one extraction call requests the metadata of no table id
    twice; every id it requests is a non-zero number that some card names as
    its [source-table] or as the [source-table] of a join; and when the call
    returns, every such id has been requested (so exactly once). *)
Theorem C4_one_fetch_per_table (fetch : Z → option TableMetadata)
    (dashboard_id : Z) (dashboard : Value) :
  let requests := (get_dashboard_queries fetch dashboard_id dashboard).1 in
  NoDup requests
  ∧ (∀ id, id ∈ requests → id ≠ 0 ∧ references dashboard id)
  ∧ (is_Some (get_dashboard_queries fetch dashboard_id dashboard).2 →
     ∀ id, id ≠ 0 → references dashboard id → id ∈ requests).
Proof.
  pose proof (requests_spec fetch dashboard_id dashboard) as Hreq.
  destruct (readDashboard dashboard) as [[[dashcards tabLookup] tableIds]|]
    eqn:Hread.
  - apply readDashboard_spec in Hread as [Hdcs Hids].
    apply collectTableIds_spec in Hids as [Hnd Hmem].
    simpl. rewrite Hreq. unfold references. rewrite Hdcs.
    split; [done|]. split.
    + intros id Hid. by apply Hmem.
    + intros _ id Hne Href. by apply Hmem.
  - simpl. rewrite Hreq. simpl. split; [apply NoDup_nil_2|]. split.
    + intros id Hid. by apply elem_of_nil in Hid.
    + intros [v Hv]. done.
Qed.

Lemma C4_one_fetch_per_table_witness :
  (get_dashboard_queries sampleFetch 1 sampleDashboard).1 = [2; 7]
  ∧ NoDup (get_dashboard_queries sampleFetch 1 sampleDashboard).1
  ∧ 2 ∈ (get_dashboard_queries sampleFetch 1 sampleDashboard).1.
Proof.
  destruct (C4_one_fetch_per_table sampleFetch 1 sampleDashboard)
    as (Hnd & _ & Hall).
  split; [vm_compute; reflexivity|]. split; [exact Hnd|].
  apply Hall.
  - vm_compute. by eexists.
  - discriminate.
  - exists (structuredCard 1 [("source-table", VNum 2)]).
    split; [apply elem_of_cons; by left | left; reflexivity].
Defined.

(** C6: the code leaves a [source-table] of 0 out of the resolved query,
    where the claim has ["table_0"].  No table is requested for the id 0,
    so the table names do not hold it.  The guard on the card's own
    [source-table] reads the number 0 as absent and writes no member; the
    join of the same card, tested by [typeof] alone, resolves the same id
    to ["table_0"]. *)
Theorem C6_zero_source_table_dropped :
  let dc := structuredCard 1 zeroJoinQuery in
  Js.getOpt "source-table" (cardQuery dc) = VNum 0
  ∧ ∃ out card,
      get_dashboard_queries sampleFetch 1 zeroJoinDashboard
      = ([], Some (VObj out))
      ∧ Js.lookup "cards" out = VArr [VObj card]
      ∧ Js.lookup "mbql" card
        = VObj [("joins",
                 VArr [VObj [("source-table", VStr "table_0");
                             ("condition",
                              VArr [VStr "=";
                                    VArr [VStr "field"; VStr "field_10"];
                                    VArr [VStr "field"; VStr "field_20"]])]])]
      ∧ Js.get "source-table" (Js.lookup "mbql" card) = VUndef
      ∧ Js.get "source-table" (Js.lookup "mbql" card) ≠ VStr "table_0"
      ∧ resolveMbql ∅ ∅ (VObj zeroJoinQuery) = Some (Js.lookup "mbql" card).
Proof.
  split; [reflexivity|].
  eexists _, _. split; [vm_compute; reflexivity|].
  split; [vm_compute; reflexivity|].
  split; [vm_compute; reflexivity|].
  split; [vm_compute; reflexivity|].
  split; [vm_compute; discriminate | vm_compute; reflexivity].
Qed.

(** ** Native cards *)

(** C3, as stated, fails on a native card whose query is the empty string:
    the summary's [sql] is [null], not the empty string
    ([native.query || null]). *)
Lemma C3_empty_sql_counterexample :
  isNativeCard (nativeCard 6 (VStr "")) = true
  ∧ Js.get "query" (nativeOf (nativeCard 6 (VStr ""))) = VStr ""
  ∧ ∃ summary,
      cardSummary ∅ ∅ [] (nativeCard 6 (VStr "")) = Some (VObj summary)
      ∧ Js.lookup "sql" summary = VNull
      ∧ Js.lookup "sql" summary ≠ VStr "".
Proof.
  split; [vm_compute; reflexivity|]. split; [vm_compute; reflexivity|].
  eexists. split; [vm_compute; reflexivity|].
  split; [vm_compute; reflexivity | vm_compute; discriminate].
Qed.

(** C3 (amended): a dashcard classified as a native card is summarised as
    one; for every non-empty query string the summary's [sql] is that very
    string, and its [template_tags] are the keys of the [template-tags]
    object, in its order (none when the member is missing). *)
Theorem C3_native_sql_verbatim (names : gmap Z string)
    (fieldLookup : gmap Z FieldInfo) (tabLookup : list (string * Value))
    (dc : Value) :
  isNullish dc = false →
  is_Some (Js.toString (Js.get "dashboard_tab_id" dc)) →
  isNativeCard dc = true →
  ∃ summary,
    cardSummary names fieldLookup tabLookup dc = Some (VObj summary)
    ∧ Js.lookup "query_type" summary = VStr "native"
    ∧ (∀ s, Js.get "query" (nativeOf dc) = VStr s → s ≠ "" →
         Js.lookup "sql" summary = VStr s)
    ∧ (∀ tags, Js.get "template-tags" (nativeOf dc) = VObj tags →
         Js.lookup "template_tags" summary = VArr (VStr <$> tags.*1))
    ∧ (Js.truthy (Js.get "template-tags" (nativeOf dc)) = false →
         Js.lookup "template_tags" summary = VArr []).
Proof.
  intros Hdc [key Hkey] Hnative.
  apply andb_prop in Hnative as [Hid Htype].
  unfold cardSummary, nativeOf, datasetQueryOf in *.
  assert (Js.getE "card" dc = Some (Js.get "card" dc)) as -> by (by destruct dc).
  cbn [mbind option_bind]. rewrite Hkey, Hid, Htype. cbn [negb].
  destruct (Js.truthy (Js.get "dashboard_tab_id" dc)); cbn [mbind option_bind];
    (eexists; split; [reflexivity|]; split; [reflexivity|]; split; [|split]).
  all: cbn [Js.lookup String.eqb Ascii.eqb Bool.eqb].
  all: try (intros s Hs Hne; rewrite Hs; unfold Js.or; simpl;
            by destruct (String.eqb_spec s "")).
  all: try (intros tags Htags; rewrite Htags; simpl; unfold Js.keys; simpl;
            by rewrite <- list_fmap_compose).
  all: intros Hfalsy; by rewrite Hfalsy.
Qed.

Lemma C3_native_sql_verbatim_witness :
  ∃ summary,
    cardSummary sampleTables sampleFields [] (nativeCard 6 (VStr "select 1"))
    = Some (VObj summary)
    ∧ Js.lookup "sql" summary = VStr "select 1"
    ∧ Js.lookup "template_tags" summary = VArr [VStr "since"; VStr "region"].
Proof.
  destruct (C3_native_sql_verbatim sampleTables sampleFields []
              (nativeCard 6 (VStr "select 1")))
    as (summary & Heq & _ & Hsql & Htags & _).
  - reflexivity.
  - vm_compute. by eexists.
  - vm_compute. reflexivity.
  - exists summary. split; [exact Heq|]. split.
    + apply Hsql; [vm_compute; reflexivity | discriminate].
    + apply (Htags [("since", VObj [("type", VStr "date")]); ("region", VObj [])]).
      vm_compute. reflexivity.
Defined.

(** ** The filter auditor *)

Lemma bearsStageNumber_spec items :
  existsb Audit.bearsStageNumber items = true ↔ hasStageNumber items.
Proof.
  rewrite existsb_exists. unfold hasStageNumber. split.
  - intros (t & Hin & Ht). destruct t as [ | | | | | | members | ]; try done.
    exists members. split; [by apply list_elem_of_In|].
    by apply bool_decide_eq_true in Ht.
  - intros (members & Hin & Hkey). exists (VObj members).
    split; [by apply list_elem_of_In|]. by apply bool_decide_eq_true.
Qed.

Lemma snoc_ne {A} (l : list A) x : (l ++ [x])%list ≠ l.
Proof.
  intros Heq. apply (f_equal length) in Heq.
  rewrite length_app in Heq. simpl in Heq. lia.
Qed.

Lemma getE_not_nullish k v : isNullish v = false → Js.getE k v = Some (Js.get k v).
Proof. by destruct v. Qed.

(** What one mapping adds to the error list. *)
Lemma checkMapping_spec errors m pid :
  isNullish m = false →
  Js.toString (Js.get "parameter_id" m) = Some pid →
  Audit.checkMapping errors m
  = Some (if negb (Js.truthy (Js.get "target" m))
          then (errors ++ [noTargetError pid])%list
          else match Js.get "target" m with
               | VArr items =>
                   if Js.isStr "dimension" (Js.at_ 0 items)
                      && negb (existsb Audit.bearsStageNumber items)
                   then (errors ++ [stageNumberError pid])%list
                   else errors
               | _ => errors
               end).
Proof.
  intros Hm Hpid. unfold Audit.checkMapping.
  rewrite getE_not_nullish by done. cbn [mbind option_bind].
  destruct (negb (Js.truthy (Js.get "target" m))).
  - by rewrite Hpid.
  - destruct (Js.get "target" m) as [ | | | | | items | | ]; try done.
    destruct (Js.isStr "dimension" (Js.at_ 0 items)); [|done].
    destruct (existsb Audit.bearsStageNumber items); simpl; [done|].
    by rewrite Hpid.
Qed.

Lemma isStr_spec lit v : Js.isStr lit v = true ↔ v = VStr lit.
Proof.
  destruct v as [ | | | | s | | | ]; simpl;
    try (split; [discriminate | intros [=]]).
  destruct (String.eqb_spec s lit) as [->|Hne];
    [done | split; [discriminate | intros [= ->]; done]].
Qed.

(** C8, as stated, fails on a mapping whose target is the number 0 (or any
    other falsy value that is there): it is neither absent nor a sequence,
    and the audit flags it as having no target. *)
Lemma C8_falsy_target_counterexample :
  "target" ∈ (Js.entries zeroTargetMapping).*1
  ∧ Js.isArray (Js.get "target" zeroTargetMapping) = false
  ∧ Audit.checkMapping [] zeroTargetMapping
    = Some ["Parameter 'p1' has no target"]
  ∧ Audit.checkMapping [] zeroTargetMapping ≠ Some [].
Proof.
  split; [|split; [|split]].
  - simpl. apply elem_of_cons. right. apply elem_of_cons. by left.
  - reflexivity.
  - vm_compute. reflexivity.
  - vm_compute. discriminate.
Qed.

(** C8 (amended): a mapping whose target is absent, [null] or otherwise
    falsy is flagged as having no target; a target that is a sequence headed
    by ["dimension"] is flagged, with the mapping's parameter named, exactly
    when none of its elements is an object with a [stage-number] member;
    every other truthy target adds no error. *)
Theorem C8_mapping_validation (errors : list string) (m : Value) (pid : string) :
  isNullish m = false →
  Js.toString (Js.get "parameter_id" m) = Some pid →
  ∃ errors',
    Audit.checkMapping errors m = Some errors'
    ∧ (Js.truthy (Js.get "target" m) = false →
         errors' = (errors ++ [noTargetError pid])%list)
    ∧ (∀ items, Js.get "target" m = VArr items →
         Js.at_ 0 items = VStr "dimension" →
         (errors' = (errors ++ [stageNumberError pid])%list
          ∧ ¬ hasStageNumber items)
         ∨ (errors' = errors ∧ hasStageNumber items))
    ∧ (Js.truthy (Js.get "target" m) = true →
       (∀ items, Js.get "target" m = VArr items →
          Js.at_ 0 items ≠ VStr "dimension") →
       errors' = errors).
Proof.
  intros Hm Hpid. eexists. split; [by apply checkMapping_spec|].
  split; [|split].
  - by intros ->.
  - intros items -> Hhead. simpl.
    apply isStr_spec in Hhead. rewrite Hhead. simpl.
    destruct (existsb Audit.bearsStageNumber items) eqn:Hstage; simpl.
    + right. split; [done|]. by apply bearsStageNumber_spec.
    + left. split; [done|]. rewrite <- bearsStageNumber_spec. congruence.
  - intros -> Hother. simpl.
    destruct (Js.get "target" m) as [ | | | | | items | | ]; try done.
    destruct (Js.isStr "dimension" (Js.at_ 0 items)) eqn:Hhead; [|done].
    apply isStr_spec in Hhead. by destruct (Hother items).
Qed.

Lemma C8_mapping_validation_witness :
  Audit.checkMapping [] stagelessMapping = Some [stageNumberError "p1"]
  ∧ Audit.checkMapping [] stagedMapping = Some [].
Proof.
  destruct (C8_mapping_validation [] stagelessMapping "p1")
    as (e1 & Heq1 & _ & Hdim1 & _); [reflexivity..|].
  destruct (C8_mapping_validation [] stagedMapping "p1")
    as (e2 & Heq2 & _ & Hdim2 & _); [reflexivity..|].
  split.
  - rewrite Heq1. f_equal.
    destruct (Hdim1 _ eq_refl eq_refl) as [[-> _]|[_ (members & Hin & Hkey)]];
      [reflexivity|].
    exfalso. apply list_elem_of_In in Hin. simpl in Hin.
    destruct Hin as [[=]|[[=]|[]]].
  - rewrite Heq2. f_equal.
    destruct (Hdim2 _ eq_refl eq_refl) as [[_ Hno]|[-> _]]; [|reflexivity].
    exfalso. apply Hno. exists [("stage-number", VNum 0)].
    split; [|apply list_elem_of_singleton; reflexivity].
    do 2 (apply elem_of_cons; right). apply elem_of_cons. by left.
Defined.

Lemma sameValueZero_primitive a b :
  isPrimitive a = true → Js.sameValueZero a b = true ↔ a = b.
Proof.
  intros Hprim. destruct a, b; simpl in *; try done;
    try (split; [done | intros [=]]).
  all: rewrite ?bool_decide_eq_true; split; congruence.
Qed.

Lemma includes_primitive items pid :
  isPrimitive pid = true → Js.includes items pid = true ↔ pid ∈ items.
Proof.
  intros Hprim. unfold Js.includes. rewrite existsb_exists. split.
  - intros (x & Hin & Heq). apply sameValueZero_primitive in Heq as ->; [|done].
    by apply list_elem_of_In.
  - intros Hin. exists pid. split; [by apply list_elem_of_In|].
    by apply sameValueZero_primitive.
Qed.

Lemma mapM_getE k items :
  forallb (λ v, negb (isNullish v)) items = true →
  mapM (Js.getE k) items = Some (Js.get k <$> items).
Proof.
  intros Hall. apply mapM_Some_2.
  induction items as [|v items IH]; simpl in *; constructor.
  - apply getE_not_nullish. apply andb_prop in Hall as [Hv _].
    by destruct (isNullish v).
  - apply IH. by apply andb_prop in Hall as [_ ?].
Qed.

Lemma mappingShaped_spec m :
  mappingShaped m = true →
  isNullish m = false ∧ ∃ pid, Js.toString (Js.get "parameter_id" m) = Some pid.
Proof.
  unfold mappingShaped. intros Hm. apply andb_prop in Hm as [Hnull Hpid].
  split; [by destruct (isNullish m)|].
  apply bool_decide_eq_true in Hpid as [pid Hpid]. eauto.
Qed.

Lemma checkMappings_is_Some mappings errors :
  forallb mappingShaped mappings = true →
  is_Some (foldM Audit.checkMapping errors mappings).
Proof.
  revert errors. induction mappings as [|m mappings IH]; intros errors Hall;
    simpl in *; [by eexists|].
  apply andb_prop in Hall as [Hm Hall].
  apply mappingShaped_spec in Hm as (Hnull & pid & Hpid).
  rewrite (checkMapping_spec _ _ pid) by done. simpl. by apply IH.
Qed.

Lemma auditCard_spec parameterIds dc :
  dashcardShaped dc = true →
  ∃ c, Audit.auditCard parameterIds dc = Some c
       ∧ connected_params c = Js.get "parameter_id" <$> mappingsOf dc
       ∧ missing_params c
         = filter (λ pid, Js.includes (connected_params c) pid = false)
                  parameterIds
       ∧ foldM Audit.checkMapping [] (mappingsOf dc) = Some (errors c).
Proof.
  unfold dashcardShaped, mappingsOf, Audit.auditCard.
  intros Hdc. apply andb_prop in Hdc as [Hnull Hmappings].
  rewrite getE_not_nullish by (by destruct (isNullish dc)).
  cbn [mbind option_bind].
  destruct (Js.or (Js.get "parameter_mappings" dc) (VArr []))
    as [ | | | | | mappings | | ]; try done.
  cbn [Js.asArray mbind option_bind].
  rewrite mapM_getE.
  2:{ apply forallb_forall. intros m Hin.
      rewrite forallb_forall in Hmappings. apply Hmappings in Hin.
      by apply mappingShaped_spec in Hin as [-> _]. }
  cbn [mbind option_bind].
  destruct (checkMappings_is_Some mappings [] Hmappings) as [errs Herrs].
  rewrite Herrs. cbn [mbind option_bind].
  eexists. split; [reflexivity|]. simpl. done.
Qed.

Lemma auditCards_spec parameterIds dashcards :
  forallb dashcardShaped dashcards = true →
  ∃ cards, mapM (Audit.auditCard parameterIds) dashcards = Some cards
           ∧ Forall2 (λ dc c, Audit.auditCard parameterIds dc = Some c)
                     dashcards cards.
Proof.
  intros Hall.
  assert (is_Some (mapM (Audit.auditCard parameterIds) dashcards)) as [cards Hc].
  { apply mapM_is_Some, Forall_forall. intros dc Hin. simpl.
    rewrite forallb_forall in Hall. apply list_elem_of_In, Hall in Hin.
    destruct (auditCard_spec parameterIds dc Hin) as (c & -> & _). by eexists. }
  exists cards. split; [done|]. by apply mapM_Some_1.
Qed.

Lemma hasIssues_spec c :
  Audit.hasIssues c = true ↔ missing_params c ≠ [] ∨ errors c ≠ [].
Proof.
  unfold Audit.hasIssues. rewrite orb_true_iff, !Nat.ltb_lt.
  destruct (missing_params c), (errors c); simpl; split;
    intros [|]; try lia; try done; auto with lia.
Qed.

(** C7: on a dashboard the audit can read, the report lists for every
    dashcard the [parameter_id] of each of its mappings (none when it has no
    mappings) as connected; its missing parameters are the dashboard's
    parameter ids that are not connected, in the dashboard's order; and a
    card is among the cards needing attention exactly when it has a missing
    parameter or an error. *)
Theorem C7_missing_parameters (dashboard : Value) :
  dashboardShaped dashboard = true →
  ∃ report,
    Audit.audit_dashboard_filters dashboard = Some report
    ∧ parameter_ids report = Js.get "id" <$> parametersOf dashboard
    ∧ Forall2
        (λ dc c,
           connected_params c = Js.get "parameter_id" <$> mappingsOf dc
           ∧ missing_params c
             = filter (λ pid, Js.includes (connected_params c) pid = false)
                      (parameter_ids report)
           ∧ missing_params c `sublist_of` parameter_ids report
           ∧ ∀ pid, isPrimitive pid = true →
                    pid ∈ missing_params c ↔
                    pid ∈ parameter_ids report ∧ pid ∉ connected_params c)
        (dashcardsOf dashboard) (all_cards report)
    ∧ cards_needing_attention report `sublist_of` all_cards report
    ∧ ∀ c, c ∈ cards_needing_attention report ↔
           c ∈ all_cards report ∧ (missing_params c ≠ [] ∨ errors c ≠ []).
Proof.
  unfold dashboardShaped, Audit.audit_dashboard_filters, parametersOf, dashcardsOf.
  intros Hd. apply andb_prop in Hd as [Hd Hparams].
  apply andb_prop in Hd as [Hnull Hdcs].
  rewrite getE_not_nullish by (by destruct (isNullish dashboard)).
  cbn [mbind option_bind].
  destruct (Js.or (Js.get "dashcards" dashboard) (VArr []))
    as [ | | | | | dashcards | | ]; try done.
  destruct (Js.or (Js.get "parameters" dashboard) (VArr []))
    as [ | | | | | parameters | | ]; try done.
  cbn [Js.asArray mbind option_bind].
  rewrite mapM_getE by done. cbn [mbind option_bind].
  destruct (auditCards_spec (Js.get "id" <$> parameters) dashcards Hdcs)
    as (cards & Hcards & Hall).
  rewrite Hcards. cbn [mbind option_bind].
  eexists. split; [reflexivity|]. simpl.
  split; [reflexivity|]. split; [|split].
  - assert (Forall (λ dc, dashcardShaped dc = true) dashcards) as Hshaped.
    { apply Forall_forall. intros dc Hin. rewrite forallb_forall in Hdcs.
      by apply Hdcs, list_elem_of_In. }
    clear Hcards Hdcs.
    induction Hall as [|dc c dashcards cards Hc Hall IH]; constructor.
    + apply Forall_cons in Hshaped as [Hdc _].
      destruct (auditCard_spec (Js.get "id" <$> parameters) dc Hdc)
        as (c' & Hc' & Hconn & Hmiss & _).
      rewrite Hc in Hc'. injection Hc' as <-.
      split; [done|]. split; [done|]. rewrite Hmiss.
      split; [apply sublist_filter|].
      intros pid Hprim. rewrite list_elem_of_filter.
      pose proof (includes_primitive (connected_params c) pid Hprim) as Hinc.
      destruct (Js.includes (connected_params c) pid); intuition congruence.
    + apply IH. by apply Forall_cons in Hshaped as [_ ?].
  - apply sublist_filter.
  - intros c. rewrite list_elem_of_filter, hasIssues_spec. tauto.
Qed.

Lemma C7_missing_parameters_witness :
  ∃ report c,
    Audit.audit_dashboard_filters auditedDashboard = Some report
    ∧ all_cards report = [c]
    ∧ connected_params c = [VStr "p1"]
    ∧ missing_params c = [VStr "p2"]
    ∧ c ∈ cards_needing_attention report.
Proof.
  destruct (C7_missing_parameters auditedDashboard)
    as (report & Heq & _ & _ & _ & Hissues); [reflexivity|].
  assert (Some report = Audit.audit_dashboard_filters auditedDashboard) as Hrep
    by done.
  vm_compute in Hrep. injection Hrep as ->.
  eexists _, _. split; [exact Heq|]. split; [reflexivity|].
  split; [reflexivity|]. split; [reflexivity|].
  apply Hissues. split; [apply list_elem_of_singleton; reflexivity|].
  left. discriminate.
Defined.

(** * Further properties *)

(** ** Resolved trees *)

(** X1: on a tree none of whose field references carries a sequence in its
    options slot, resolution leaves no field reference with a number: every
    id the resolver can reach has been replaced by a name. *)
Theorem resolve_leaves_no_field_id (fieldLookup : gmap Z FieldInfo) t :
  plainOptions t = true → noFieldId (resolveFieldRef fieldLookup t) = true.
Proof.
  induction t as [ | | | | | items IH | | ] using Value_deep_ind; try done.
  intros Hplain. simpl in Hplain.
  destruct (fieldRefId items) as [id|] eqn:Hid.
  - rewrite (resolve_field _ _ id) by done.
    destruct (fieldName_is_string fieldLookup id) as [s ->].
    unfold keepsOptions.
    destruct (Js.at_ 2 items) as [ | | b | n | s' | | members | ];
      cbn [Js.truthy Js.isObjectType]; rewrite ?andb_false_r; done.
  - rewrite resolve_generic by done. simpl.
    rewrite fieldRefId_map_resolve by done.
    apply forallb_forall. intros y Hy. apply in_map_iff in Hy as (x & <- & Hx).
    rewrite Forall_forall in IH. apply IH; [by apply list_elem_of_In|].
    rewrite forallb_forall in Hplain. by apply Hplain.
Qed.

Lemma resolve_leaves_no_field_id_witness :
  noFieldId (resolveFieldRef sampleFields
               (VArr [VStr "="; VArr [VStr "field"; VNum 10; monthly]; VNum 1]))
  = true.
Proof. apply resolve_leaves_no_field_id. reflexivity. Defined.

(** X2: a tree in which no reachable sequence is a field reference with a
    number is returned as it is, whatever the lookup holds. *)
Theorem resolve_fixes_resolved_trees (fieldLookup : gmap Z FieldInfo) t :
  noFieldId t = true → resolveFieldRef fieldLookup t = t.
Proof.
  induction t as [ | | | | | items IH | | ] using Value_deep_ind; try done.
  intros Hno. simpl in Hno.
  destruct (fieldRefId items) as [id|] eqn:Hid; [done|].
  rewrite resolve_generic by done. f_equal.
  rewrite <- (list_fmap_id items) at 2. apply list_fmap_ext.
  intros i x Hx. simpl. rewrite Forall_forall in IH.
  apply list_elem_of_lookup_2 in Hx. apply IH; [done|].
  rewrite forallb_forall in Hno. by apply Hno, list_elem_of_In.
Qed.

Lemma resolve_fixes_resolved_trees_witness :
  let t := VArr [VStr "and"; VArr [VStr "="; VArr [VStr "field"; VStr "STATUS"];
                                   VStr "active"]] in
  resolveFieldRef orderFields t = t.
Proof. intros t. apply resolve_fixes_resolved_trees. reflexivity. Defined.

(** ** Structured queries *)

(** X3: the structured-query resolver hands a falsy query back as it is;
    on any other query it throws exactly when one of [aggregation],
    [breakout], [order-by], [fields] or [joins] is truthy without being a
    sequence, or a join is [null] or [undefined]. *)
Theorem resolveMbql_throws_iff (tableNames : gmap Z string)
    (fieldLookup : gmap Z FieldInfo) (query : Value) :
  (Js.truthy query = false →
     resolveMbql tableNames fieldLookup query = Some query)
  ∧ (Js.truthy query = true →
       (resolveMbql tableNames fieldLookup query = None
        ↔ wellShaped query = false)).
Proof.
  split.
  - intros Hfalsy. unfold resolveMbql. by rewrite Hfalsy.
  - intros Htruthy.
    pose proof (resolveMbql_is_Some tableNames fieldLookup query Htruthy) as Hiff.
    destruct (wellShaped query); destruct (resolveMbql _ _ query) as [r|];
      split; try done; intros _.
    + by destruct (proj2 Hiff eq_refl).
    + assert (false = true) by (apply Hiff; eauto). done.
Qed.

Lemma resolveMbql_throws_iff_witness :
  resolveMbql sampleTables sampleFields (VNum 0) = Some (VNum 0)
  ∧ resolveMbql sampleTables sampleFields
      (VObj [("source-table", VNum 2); ("fields", VStr "all")]) = None.
Proof.
  split.
  - apply resolveMbql_throws_iff. reflexivity.
  - apply resolveMbql_throws_iff; reflexivity.
Defined.

(** X4: a join that is an object keeps every member other than
    [source-table] and [condition] as it is, and always comes out with
    those two members, written or added: a [source-table] that is not a
    number is kept, the condition is resolved as a tree.  A join that is
    [null] or [undefined] makes the resolver throw. *)
Theorem resolveJoin_passthrough (tableNames : gmap Z string)
    (fieldLookup : gmap Z FieldInfo) (j : Value) :
  (isNullish j = true → resolveJoin tableNames fieldLookup j = None)
  ∧ (∀ members, j = VObj members →
       ∃ out,
         resolveJoin tableNames fieldLookup j = Some (VObj out)
         ∧ (∀ k, k ∈ out.*1 ↔
                 k ∈ members.*1 ∨ k = "source-table" ∨ k = "condition")
         ∧ (∀ k, k ≠ "source-table" → k ≠ "condition" →
                 Js.lookup k out = Js.lookup k members)
         ∧ Js.lookup "condition" out
           = resolveFieldRef fieldLookup (Js.lookup "condition" members)
         ∧ (∀ id, Js.lookup "source-table" members = VNum id →
                  Js.lookup "source-table" out = tableName tableNames id)
         ∧ ((∀ id, Js.lookup "source-table" members ≠ VNum id) →
              Js.lookup "source-table" out = Js.lookup "source-table" members)).
Proof.
  split; [by destruct j|].
  intros members ->. unfold resolveJoin. simpl.
  eexists. split; [reflexivity|]. split; [|split; [|split; [|split]]].
  - intros k. rewrite !keys_set. tauto.
  - intros k Hst Hcond. rewrite !lookup_set.
    destruct (String.eqb_spec "condition" k); [congruence|].
    destruct (String.eqb_spec "source-table" k); [congruence|]. done.
  - by rewrite lookup_set.
  - intros id Hid. rewrite !lookup_set. simpl. by rewrite Hid.
  - intros Hnot. rewrite !lookup_set. simpl.
    destruct (Js.lookup "source-table" members) as [ | | | n | | | | ] eqn:Hst;
      try done.
    by destruct (Hnot n).
Qed.

Lemma resolveJoin_passthrough_witness :
  ∃ out,
    resolveJoin sampleTables sampleFields
      (VObj [("alias", VStr "P"); ("source-table", VStr "card__12")])
    = Some (VObj out)
    ∧ Js.lookup "alias" out = VStr "P"
    ∧ Js.lookup "source-table" out = VStr "card__12".
Proof.
  destruct (resolveJoin_passthrough sampleTables sampleFields
              (VObj [("alias", VStr "P"); ("source-table", VStr "card__12")]))
    as [_ Hobj].
  destruct (Hobj _ eq_refl) as (out & Heq & _ & Hkeep & _ & _ & Hst).
  exists out. split; [exact Heq|]. split.
  - rewrite Hkeep; [reflexivity | discriminate | discriminate].
  - rewrite Hst; [reflexivity | discriminate].
Defined.

(** X5: the expressions of a query are resolved value by value: the
    resolved object holds, in the order of the input, every expression
    whose name is not [__proto__], resolved as a tree.  An expression named
    [__proto__] is lost: assigning to that name on the fresh object creates
    no member. *)
Theorem resolveExpressions_value_wise (fieldLookup : gmap Z FieldInfo)
    (exprs : list (string * Value)) :
  NoDup exprs.*1 →
  resolveExpressions fieldLookup (VObj exprs)
  = VObj ((λ kv, (kv.1, resolveFieldRef fieldLookup kv.2))
            <$> filter (λ kv, kv.1 ≠ "__proto__") exprs).
Proof.
  intros Hnd. unfold resolveExpressions. simpl.
  by rewrite resolveExpressions_fold.
Qed.

Lemma resolveExpressions_value_wise_witness :
  resolveExpressions sampleFields
    (VObj [("profit", VArr [VStr "-"; VArr [VStr "field"; VNum 10; VNull]; VNum 1]);
           ("__proto__", VArr [VStr "field"; VNum 10; VNull]);
           ("one", VNum 1)])
  = VObj [("profit", VArr [VStr "-"; VArr [VStr "field"; VStr "CREATED_AT"]; VNum 1]);
          ("one", VNum 1)].
Proof.
  rewrite resolveExpressions_value_wise; [reflexivity|].
  apply (bool_decide_unpack _). vm_compute. reflexivity.
Defined.

(** ** Card summaries *)

(** The three shapes of a summary. *)
Lemma cardSummary_shape names fl tabLookup dc summary :
  cardSummary names fl tabLookup dc = Some summary →
  ∃ s, summary = VObj s
       ∧ Js.lookup "dashcard_id" s = Js.get "id" dc
       ∧ Js.lookup "query_type" s = VStr (queryTypeOf dc)
       ∧ Js.lookup "card_id" s
         = (if Js.truthy (Js.get "card_id" dc) then Js.get "card_id" dc
            else VNull)
       ∧ (queryTypeOf dc = "mbql" →
          resolveMbql names fl (structuredQueryOf dc) = Some (Js.lookup "mbql" s)).
Proof.
  unfold cardSummary, queryTypeOf, isNativeCard, structuredQueryOf, datasetQueryOf.
  destruct (Js.getE "card" dc) as [card|] eqn:Hcard; [|done].
  assert (card = Js.get "card" dc) as ->
    by (destruct dc; simpl in Hcard |- *; congruence).
  cbn [mbind option_bind].
  match goal with
  | |- context [if Js.truthy (Js.get "dashboard_tab_id" dc) then ?a else ?b] =>
      destruct (if Js.truthy (Js.get "dashboard_tab_id" dc) then a else b)
        as [tabName|]; [|done]
  end.
  cbn [mbind option_bind].
  destruct (Js.truthy (Js.get "card_id" dc)); cbn [negb andb].
  - destruct (Js.isStr "native" _).
    + intros [= <-]. eexists. repeat split; done.
    + destruct (resolveMbql names fl _) as [mbql|] eqn:Hmbql; [|done].
      intros [= <-]. eexists. repeat split; done.
  - intros [= <-]. eexists. repeat split; done.
Qed.

(** X6: every summary names its dashcard and has one of three kinds: a
    dashcard without a card id is [virtual], whatever its query says (its
    card id is reported as [null]); with a card id it is [native] when the
    query type is ["native"] and [mbql] otherwise. *)
Theorem cardSummary_classification (names : gmap Z string)
    (fieldLookup : gmap Z FieldInfo) (tabLookup : list (string * Value))
    (dc summary : Value) :
  cardSummary names fieldLookup tabLookup dc = Some summary →
  ∃ s, summary = VObj s
       ∧ Js.lookup "dashcard_id" s = Js.get "id" dc
       ∧ Js.lookup "query_type" s = VStr (queryTypeOf dc)
       ∧ (Js.truthy (Js.get "card_id" dc) = false →
            queryTypeOf dc = "virtual" ∧ Js.lookup "card_id" s = VNull)
       ∧ (Js.truthy (Js.get "card_id" dc) = true →
            Js.lookup "card_id" s = Js.get "card_id" dc
            ∧ (queryTypeOf dc = "native" ↔ isNativeCard dc = true)
            ∧ (queryTypeOf dc = "mbql" ↔ isNativeCard dc = false)).
Proof.
  intros Hsum.
  apply cardSummary_shape in Hsum as (s & -> & Hid & Htype & Hcard & _).
  exists s. split; [done|]. split; [done|]. split; [done|].
  unfold queryTypeOf in *. split.
  - intros Hfalsy. rewrite Hfalsy in Hcard |- *. done.
  - intros Htruthy. rewrite Htruthy in Hcard |- *. split; [done|].
    simpl. by destruct (isNativeCard dc).
Qed.

Lemma cardSummary_classification_witness :
  ∃ s, cardSummary sampleTables sampleFields []
         (VObj [("id", VNum 9); ("card_id", VNull);
                ("card", VObj [("dataset_query", VObj [("type", VStr "native")])])])
       = Some (VObj s)
       ∧ Js.lookup "query_type" s = VStr "virtual".
Proof.
  set (dc := VObj [("id", VNum 9); ("card_id", VNull);
                   ("card", VObj [("dataset_query", VObj [("type", VStr "native")])])]).
  destruct (cardSummary sampleTables sampleFields [] dc) as [summary|] eqn:Hsum;
    [|vm_compute in Hsum; discriminate].
  destruct (cardSummary_classification _ _ _ _ _ Hsum) as (s & -> & _ & Htype & _).
  exists s. split; [reflexivity | exact Htype].
Defined.

Lemma bind_resolveMbql_None names fl query (k : Value → Value) :
  Js.truthy query = true →
  (resolveMbql names fl query ≫= λ mbql, Some (k mbql)) = None
  ↔ wellShaped query = false.
Proof.
  intros Htruthy.
  pose proof (resolveMbql_is_Some names fl query Htruthy) as Hiff.
  destruct (resolveMbql names fl query) as [mbql|];
    destruct (wellShaped query); cbn [mbind option_bind]; split; try done;
    intros _.
  - assert (false = true) by (apply Hiff; eauto). done.
  - by destruct (proj2 Hiff eq_refl).
Qed.

(** X7: whether a dashcard can be summarised does not depend on the tables:
    the extractor throws on it exactly when it is [null], when its tab id
    cannot be turned into a member name, or when it is a structured card
    whose query the resolver rejects. *)
Theorem cardSummary_throws_iff (names : gmap Z string)
    (fieldLookup : gmap Z FieldInfo) (tabLookup : list (string * Value))
    (dc : Value) :
  cardSummary names fieldLookup tabLookup dc = None ↔ summarisable dc = false.
Proof.
  unfold cardSummary, summarisable, isNativeCard, structuredQueryOf, datasetQueryOf.
  destruct dc as [ | | b | n | s | items | members | ]; try done.
  all: cbn [Js.getE isNullish negb andb mbind option_bind].
  all: match goal with
       | |- context [Js.toString ?v] =>
           destruct (Js.truthy v); cbn [negb orb andb mbind option_bind];
           [destruct (Js.toString v) as [key|] eqn:Hkey;
            cbn [mbind option_bind];
            [rewrite bool_decide_eq_true_2 by eauto
            |rewrite bool_decide_eq_false_2 by (by intros [? ?]); done]|]
       end.
  all: cbn [andb].
  all: match goal with
       | |- context [Js.truthy (Js.get "card_id" ?d)] =>
           destruct (Js.truthy (Js.get "card_id" d)); cbn [negb orb andb];
           [|done]
       end.
  all: match goal with
       | |- context [Js.isStr "native" ?v] =>
           destruct (Js.isStr "native" v); cbn [orb]; [done|]
       end.
  all: apply bind_resolveMbql_None, or_object_truthy.
Qed.

Lemma cardSummary_throws_iff_witness :
  cardSummary sampleTables sampleFields []
    (structuredCard 1 [("breakout", VStr "month")]) = None.
Proof. apply cardSummary_throws_iff. reflexivity. Defined.

(** ** The extraction, end to end *)

Lemma strOr_nonempty o d : d ≠ "" → strOr o d ≠ "".
Proof.
  intros Hd. unfold strOr. destruct o as [s|]; [|done].
  by destruct (String.eqb_spec s "").
Qed.

Lemma tableNameFor_nonempty fetch id : tableNameFor fetch id ≠ "".
Proof.
  unfold tableNameFor, qualifiedName. destruct (fetch id) as [md|]; [|done].
  destruct (String.eqb_spec (strOr (md_schema md) "") "") as [_|Hne].
  - by apply strOr_nonempty.
  - by destruct (strOr (md_schema md) "").
Qed.

Lemma tableName_bound (names : gmap Z string) id s :
  names !! id = Some s → s ≠ "" → tableName names id = VStr s.
Proof.
  intros Hid Hne. unfold tableName, Js.or. rewrite Hid. simpl.
  by destruct (String.eqb_spec s "").
Qed.

Lemma getOpt_is_num k v id :
  Js.getOpt k v = VNum id → ∃ members, v = VObj members ∧ Js.lookup k members = VNum id.
Proof.
  destruct v as [ | | | | | items | members | ]; simpl; try done; [|eauto].
  by destruct (String.eqb k "filter").
Qed.

Lemma getOpt_is_obj k v x :
  Js.getOpt k v = VObj x → ∃ members, v = VObj members ∧ Js.lookup k members = VObj x.
Proof.
  destruct v as [ | | | | | items | members | ]; simpl; try done; [|eauto].
  by destruct (String.eqb k "filter").
Qed.

Lemma structuredQueryOf_cardQuery dc query :
  cardQuery dc = VObj query → structuredQueryOf dc = VObj query.
Proof.
  unfold cardQuery, structuredQueryOf, datasetQueryOf. intros Hq.
  apply getOpt_is_obj in Hq as (dq & Hdq & Hquery).
  rewrite Hdq. simpl. by rewrite Hquery.
Qed.

Section ExtractionFacts.

Variable fetch : Z → option TableMetadata.

(** What a returning call has gone through. *)
Lemma extraction_inv dashboard_id dashboard requests out :
  get_dashboard_queries fetch dashboard_id dashboard = (requests, Some out) →
  ∃ tabLookup cards,
    readDashboard dashboard = Some (dashcardsOf dashboard, tabLookup, requests)
    ∧ mapM (cardSummary (tableNames (fetchTables fetch requests))
              (buildFieldLookup (fetchTables fetch requests)) tabLookup)
           (dashcardsOf dashboard) = Some cards
    ∧ Js.get "cards" out = VArr cards
    ∧ Js.get "total_cards" out
      = VNum (Z.of_nat (length (dashcardsOf dashboard)))
    ∧ Js.get "tables_used" out
      = VArr (VStr <$> tablesUsed (tableNames (fetchTables fetch requests))).
Proof.
  unfold get_dashboard_queries.
  destruct (readDashboard dashboard) as [[[dashcards tabLookup] tableIds]|]
    eqn:Hread; [|done].
  destruct (readDashboard_spec _ _ _ _ Hread) as [Hdcs _].
  destruct (fetchTables_spec fetch tableIds) as (Hcalls & _).
  rewrite Hcalls.
  destruct (mapM _ dashcards) as [cards|] eqn:Hcards; [|done].
  simpl. intros [= <- <-]. rewrite Hdcs.
  exists tabLookup, cards. done.
Qed.

(** X8: in the object a call returns, a structured card whose
    [source-table] is a non-zero number carries, as its resolved
    [source-table], the name bound to that id by its own request: the
    qualified name when the request succeeded, ["unknown_table_" + id]
    when it failed. *)
Theorem structured_source_table_resolved dashboard_id dashboard requests
    out dc id :
  get_dashboard_queries fetch dashboard_id dashboard = (requests, Some out) →
  dc ∈ dashcardsOf dashboard →
  queryTypeOf dc = "mbql" →
  Js.getOpt "source-table" (cardQuery dc) = VNum id → id ≠ 0 →
  ∃ cards summary,
    Js.get "cards" out = VArr cards
    ∧ VObj summary ∈ cards
    ∧ Js.lookup "dashcard_id" summary = Js.get "id" dc
    ∧ Js.get "source-table" (Js.lookup "mbql" summary)
      = VStr (tableNameFor fetch id).
Proof.
  intros Hout Hdc Htype Hst Hne.
  apply extraction_inv in Hout as (tabLookup & cards & Hread & Hcards & Hc & _).
  apply readDashboard_spec in Hread as [_ Hids].
  apply collectTableIds_spec in Hids as [_ Hmem].
  assert (id ∈ requests) as Hin.
  { apply Hmem. split; [done|]. exists dc. split; [done|]. by left. }
  destruct (fetchTables_spec fetch requests) as (_ & Hnames & _).
  specialize (Hnames id). rewrite bool_decide_eq_true_2 in Hnames by done.
  apply mapM_Some_1 in Hcards.
  apply list_elem_of_lookup in Hdc as [i Hi].
  destruct (Forall2_lookup_l _ _ _ _ _ Hcards Hi) as (summary & Hsi & Hsum).
  apply cardSummary_shape in Hsum as (s & -> & Hid & _ & _ & Hmbql).
  specialize (Hmbql Htype).
  exists cards, s. split; [done|].
  split; [by eapply list_elem_of_lookup_2|]. split; [done|].
  apply getOpt_is_num in Hst as (query & Hq & Hsrc).
  rewrite (structuredQueryOf_cardQuery _ _ Hq) in Hmbql.
  assert (wellShaped (VObj query) = true) as Hshaped.
  { apply (resolveMbql_is_Some (tableNames (fetchTables fetch requests))
             (buildFieldLookup (fetchTables fetch requests))); [done|eauto]. }
  rewrite resolveMbql_normal in Hmbql by done.
  injection Hmbql as <-. simpl.
  destruct (resolvedMembers_lookup (tableNames (fetchTables fetch requests))
              (buildFieldLookup (fetchTables fetch requests)) (VObj query))
    as (-> & _).
  rewrite (sourceTableValue_num _ _ id) by done. simpl.
  apply tableName_bound; [done | apply tableNameFor_nonempty].
Qed.

(** X9: a returning call summarises every dashcard, once and in order,
    and reports their number as [total_cards]. *)
Theorem one_summary_per_dashcard dashboard_id dashboard requests out :
  get_dashboard_queries fetch dashboard_id dashboard = (requests, Some out) →
  ∃ cards,
    Js.get "cards" out = VArr cards
    ∧ Js.get "total_cards" out = VNum (Z.of_nat (length cards))
    ∧ Forall2 (λ dc summary,
                 Js.get "dashcard_id" summary = Js.get "id" dc
                 ∧ Js.get "query_type" summary = VStr (queryTypeOf dc))
              (dashcardsOf dashboard) cards.
Proof.
  intros Hout.
  apply extraction_inv in Hout as (tabLookup & cards & _ & Hcards & Hc & Ht & _).
  exists cards. split; [done|].
  apply mapM_Some_1 in Hcards.
  split; [by rewrite Ht, (Forall2_length _ _ _ Hcards)|].
  eapply Forall2_impl; [exact Hcards|].
  intros dc summary Hsum. simpl in Hsum.
  by apply cardSummary_shape in Hsum as (s & -> & Hid & Htype & _).
Qed.

End ExtractionFacts.

Lemma structured_source_table_resolved_witness :
  ∃ out cards summary,
    (get_dashboard_queries sampleFetch 1 sampleDashboard).2 = Some out
    ∧ Js.get "cards" out = VArr cards
    ∧ VObj summary ∈ cards
    ∧ Js.get "source-table" (Js.lookup "mbql" summary) = VStr "PUBLIC.ORDERS".
Proof.
  destruct (get_dashboard_queries sampleFetch 1 sampleDashboard)
    as [requests [out|]] eqn:Hout; [|vm_compute in Hout; discriminate].
  destruct (structured_source_table_resolved sampleFetch 1 sampleDashboard
              requests out (structuredCard 1 [("source-table", VNum 2)]) 2 Hout)
    as (cards & summary & Hc & Hin & _ & Hst).
  - apply elem_of_cons. by left.
  - reflexivity.
  - reflexivity.
  - discriminate.
  - exists out, cards, summary. done.
Defined.

Lemma one_summary_per_dashcard_witness :
  ∃ out cards,
    (get_dashboard_queries sampleFetch 1 sampleDashboard).2 = Some out
    ∧ Js.get "cards" out = VArr cards
    ∧ length cards = 6%nat.
Proof.
  destruct (get_dashboard_queries sampleFetch 1 sampleDashboard)
    as [requests [out|]] eqn:Hout; [|vm_compute in Hout; discriminate].
  destruct (one_summary_per_dashcard sampleFetch 1 sampleDashboard requests out Hout)
    as (cards & Hc & _ & Hall).
  exists out, cards. split; [reflexivity|]. split; [exact Hc|].
  by rewrite <- (Forall2_length _ _ _ Hall).
Defined.

(** ** The field lookup and the names in use *)

Lemma elem_of_recSet_here {A} (k : Z) (v : A) r : (k, v) ∈ recSet k v r.
Proof.
  induction r as [|[k0 v0] rest IH]; simpl.
  - by apply list_elem_of_singleton.
  - case_bool_decide; apply elem_of_cons; [by left | by right].
Qed.

Lemma elem_of_recSet_other {A} (k k' : Z) (v v' : A) r :
  (k, v) ∈ r → k ≠ k' → (k, v) ∈ recSet k' v' r.
Proof.
  intros Hin Hne. induction r as [|[k0 v0] rest IH]; simpl.
  - by apply elem_of_nil in Hin.
  - apply elem_of_cons in Hin as [[= <- <-]|Hin].
    + rewrite bool_decide_eq_false_2 by done. apply elem_of_cons. by left.
    + case_bool_decide; apply elem_of_cons; right; auto.
Qed.

Lemma elem_of_recEntries_2 {A} (x : Z * A) r : x ∈ r → x ∈ recEntries r.
Proof.
  intros Hin. unfold recEntries. rewrite elem_of_app, merge_sort_Permutation.
  rewrite !list_elem_of_filter.
  destruct (isIndex x.1); [left | right]; done.
Qed.

Section FieldLookupFacts.

Variable fetch : Z → option TableMetadata.

Lemma fetch_loop_keeps tableIds t tid md :
  fetch tid = Some md →
  (tid, md) ∈ tableMetadata t ∨ tid ∈ tableIds →
  (tid, md) ∈ tableMetadata (foldl (fetchStep fetch) t tableIds).
Proof.
  intros Hfetch. revert t.
  induction tableIds as [|id rest IH]; intros t Hin; simpl.
  - destruct Hin as [|Hin]; [done | by apply elem_of_nil in Hin].
  - apply IH. destruct (decide (id = tid)) as [->|Hne].
    + left. unfold fetchStep. rewrite Hfetch. simpl. apply elem_of_recSet_here.
    + destruct Hin as [Hin|Hin].
      * left. unfold fetchStep. destruct (fetch id); simpl; [|done].
        by apply elem_of_recSet_other.
      * right. apply elem_of_cons in Hin as [->|]; done.
Qed.

Lemma addFields_keeps names fl entry fid :
  is_Some (fl !! fid) → is_Some (addFields names fl entry !! fid).
Proof.
  unfold addFields. generalize (default [] (md_fields entry.2)) as fields.
  intros fields. revert fl.
  induction fields as [|f fields IH]; intros fl Hfl; simpl; [done|].
  apply IH. destruct (decide (f_id f = fid)) as [<-|Hne].
  - rewrite lookup_insert_eq. by eexists.
  - by rewrite lookup_insert_ne.
Qed.

Lemma addFields_adds names fl entry f :
  f ∈ default [] (md_fields entry.2) →
  is_Some (addFields names fl entry !! f_id f).
Proof.
  unfold addFields. generalize (default [] (md_fields entry.2)) as fields.
  intros fields. revert fl.
  induction fields as [|f' fields IH]; intros fl Hin; simpl.
  - by apply elem_of_nil in Hin.
  - apply elem_of_cons in Hin as [->|Hin]; [|by apply IH].
    pose proof (addFields_keeps names (<[f_id f':=
      {| fi_name := f_name f'; fi_table := names !! entry.1 |}]> fl)
      (entry.1, {| md_schema := None; md_name := None;
                   md_fields := Some fields |}) (f_id f')) as Hkeep.
    unfold addFields in Hkeep. simpl in Hkeep. apply Hkeep.
    rewrite lookup_insert_eq. by eexists.
Qed.

Lemma fold_addFields_adds names entries fl entry f :
  entry ∈ entries → f ∈ default [] (md_fields entry.2) →
  is_Some (foldl (addFields names) fl entries !! f_id f).
Proof.
  revert fl. induction entries as [|e entries IH]; intros fl Hin Hf; simpl.
  - by apply elem_of_nil in Hin.
  - apply elem_of_cons in Hin as [->|Hin]; [|by apply IH].
    assert (∀ es fl', is_Some (fl' !! f_id f) →
              is_Some (foldl (addFields names) fl' es !! f_id f)) as Hkeep.
    { induction es as [|e' es IHes]; intros fl' Hfl'; simpl; [done|].
      by apply IHes, addFields_keeps. }
    by apply Hkeep, addFields_adds.
Qed.

(** X10: when no two fetched tables give different names to one field
    id, every field of every fetched table is in the field lookup under
    its own name, and a reference to it resolves to that name (to the
    placeholder only if the name is empty). *)
Theorem field_lookup_complete tableIds tid md f :
  tid ∈ tableIds → fetch tid = Some md → f ∈ default [] (md_fields md) →
  (∀ tid' md' f', tid' ∈ tableIds → fetch tid' = Some md' →
     f' ∈ default [] (md_fields md') → f_id f' = f_id f →
     f_name f' = f_name f) →
  let fieldLookup := buildFieldLookup (fetchTables fetch tableIds) in
  (∃ fi, fieldLookup !! f_id f = Some fi ∧ fi_name fi = f_name f)
  ∧ (f_name f ≠ "" →
     resolveFieldRef fieldLookup (VArr [VStr "field"; VNum (f_id f)])
     = VArr [VStr "field"; VStr (f_name f)]).
Proof.
  intros Htid Hfetch Hf Huniq fieldLookup.
  assert (is_Some (fieldLookup !! f_id f)) as [fi Hfi].
  { unfold fieldLookup, buildFieldLookup.
    apply (fold_addFields_adds _ _ _ (tid, md)); [|done].
    apply elem_of_recEntries_2. unfold fetchTables.
    apply fetch_loop_keeps; [done | by right]. }
  assert (fi_name fi = f_name f) as Hname.
  { apply buildFieldLookup_spec in Hfi
      as (tid' & md' & f' & Htid' & Hfetch' & Hf' & Hid & Hn & _).
    rewrite Hn. by eapply Huniq. }
  split; [eauto|]. intros Hne.
  rewrite (resolve_field _ _ (f_id f)) by reflexivity.
  rewrite (fieldName_found _ _ fi) by congruence.
  by rewrite Hname.
Qed.

(** X11: two table ids whose requests failed get two different
    placeholder names, and both are listed in [tables_used]. *)
Theorem failed_tables_listed_apart tableIds id id' :
  id ∈ tableIds → id' ∈ tableIds → id ≠ id' →
  fetch id = None → fetch id' = None →
  let used := tablesUsed (tableNames (fetchTables fetch tableIds)) in
  "unknown_table_" +:+ Js.numToString id ∈ used
  ∧ "unknown_table_" +:+ Js.numToString id' ∈ used
  ∧ "unknown_table_" +:+ Js.numToString id
    ≠ "unknown_table_" +:+ Js.numToString id'.
Proof.
  intros Hid Hid' Hne Hfail Hfail' used.
  destruct (fetchTables_spec fetch tableIds) as (_ & Hnames & _).
  destruct (tablesUsed_spec (tableNames (fetchTables fetch tableIds)))
    as (_ & _ & Hused).
  split; [|split].
  - apply Hused. exists id. rewrite Hnames, bool_decide_eq_true_2 by done.
    unfold tableNameFor. by rewrite Hfail.
  - apply Hused. exists id'. rewrite Hnames, bool_decide_eq_true_2 by done.
    unfold tableNameFor. by rewrite Hfail'.
  - intros Heq. apply Hne.
    apply (inj (String.app "unknown_table_")) in Heq.
    by apply (inj pretty) in Heq.
Qed.

(** X12: [tables_used] never lists more names than there were requests,
    and it is empty exactly when no table was requested. *)
Theorem tables_used_bounded tableIds :
  let used := tablesUsed (tableNames (fetchTables fetch tableIds)) in
  (length used ≤ length tableIds)%nat ∧ (used = [] ↔ tableIds = []).
Proof.
  intros used.
  destruct (fetchTables_spec fetch tableIds) as (_ & Hnames & _).
  destruct (tablesUsed_spec (tableNames (fetchTables fetch tableIds)))
    as (_ & Hnd & Hused).
  split.
  - rewrite <- (length_fmap (tableNameFor fetch) tableIds).
    apply submseteq_length, NoDup_submseteq; [done|].
    intros x Hx. apply Hused in Hx as (tid & Htid).
    rewrite Hnames in Htid. case_bool_decide as Hin; [|done].
    injection Htid as <-. apply list_elem_of_fmap. eauto.
  - split.
    + intros Hempty. destruct tableIds as [|id rest]; [done|].
      assert (tableNameFor fetch id ∈ used) as Hin.
      { apply Hused. exists id. rewrite Hnames, bool_decide_eq_true_2; [done|].
        apply elem_of_cons. by left. }
      rewrite Hempty in Hin. by apply elem_of_nil in Hin.
    + intros ->. destruct used as [|x rest] eqn:Hu; [done|].
      assert (x ∈ used) as Hx by (rewrite Hu; apply elem_of_cons; by left).
      apply Hused in Hx as (tid & Htid). rewrite Hnames in Htid.
      case_bool_decide as Hin; [by apply elem_of_nil in Hin | done].
Qed.

End FieldLookupFacts.

Lemma field_lookup_complete_witness :
  resolveFieldRef (buildFieldLookup (fetchTables sampleFetch [2; 7]))
    (VArr [VStr "field"; VNum 10])
  = VArr [VStr "field"; VStr "CREATED_AT"].
Proof.
  apply (field_lookup_complete sampleFetch [2; 7] 2
           {| md_schema := Some "PUBLIC"; md_name := Some "ORDERS";
              md_fields := Some [{| f_id := 10; f_name := "CREATED_AT" |}] |}
           {| f_id := 10; f_name := "CREATED_AT" |}).
  - apply elem_of_cons. by left.
  - reflexivity.
  - apply list_elem_of_singleton. reflexivity.
  - intros tid' md' f' _ Hfetch Hf' _. unfold sampleFetch in Hfetch.
    case_bool_decide; [|discriminate]. injection Hfetch as <-.
    apply list_elem_of_singleton in Hf'. by subst.
  - discriminate.
Defined.

Lemma failed_tables_listed_apart_witness :
  "unknown_table_7" ∈ tablesUsed (tableNames (fetchTables sampleFetch [2; 7; 8]))
  ∧ "unknown_table_8" ∈ tablesUsed (tableNames (fetchTables sampleFetch [2; 7; 8])).
Proof.
  destruct (failed_tables_listed_apart sampleFetch [2; 7; 8] 7 8)
    as (H7 & H8 & _); try reflexivity; try discriminate.
  - apply elem_of_cons. right. apply elem_of_cons. by left.
  - do 2 (apply elem_of_cons; right). apply elem_of_cons. by left.
  - split; [exact H7 | exact H8].
Defined.

(** ** A failed request *)

(** Whether a call returns does not depend on what the metadata service
    answers. *)
Lemma extraction_returns (fetch fetch' : Z → option TableMetadata)
    dashboard_id dashboard :
  is_Some (get_dashboard_queries fetch' dashboard_id dashboard).2 →
  ∃ tableIds out,
    get_dashboard_queries fetch dashboard_id dashboard
    = (tableIds, Some (VObj out)).
Proof.
  unfold get_dashboard_queries.
  destruct (readDashboard dashboard) as [[[dashcards tabLookup] tableIds]|];
    [|by intros [? ?]].
  simpl. intros Hok.
  destruct (mapM (cardSummary (tableNames (fetchTables fetch' tableIds)) _ _)
              dashcards) as [cards'|] eqn:Hcards'; [|by destruct Hok].
  assert (is_Some (mapM (cardSummary (tableNames (fetchTables fetch tableIds))
                           (buildFieldLookup (fetchTables fetch tableIds))
                           tabLookup) dashcards)) as [cards Hcards].
  { apply mapM_is_Some. apply Forall_forall. intros dc Hdc. simpl.
    assert (is_Some (mapM (cardSummary (tableNames (fetchTables fetch' tableIds))
                             (buildFieldLookup (fetchTables fetch' tableIds))
                             tabLookup) dashcards)) as Hall by eauto.
    rewrite mapM_is_Some, Forall_forall in Hall.
    eapply cardSummary_is_Some. apply (Hall dc Hdc). }
  rewrite Hcards. simpl. by eexists _, _.
Qed.

(** What the resolved query of a structured card holds. *)
Lemma structured_summary names fl tabLookup dc summary :
  cardSummary names fl tabLookup dc = Some summary →
  queryTypeOf dc = "mbql" →
  ∃ s, summary = VObj s
       ∧ Js.lookup "dashcard_id" s = Js.get "id" dc
       ∧ Js.lookup "mbql" s
         = VObj (resolvedMembers names fl (structuredQueryOf dc)).
Proof.
  intros Hsum Htype.
  apply cardSummary_shape in Hsum as (s & -> & Hid & _ & _ & Hmbql).
  specialize (Hmbql Htype). exists s. split; [done|]. split; [done|].
  assert (Js.truthy (structuredQueryOf dc) = true) as Htruthy
    by apply or_object_truthy.
  assert (wellShaped (structuredQueryOf dc) = true) as Hshaped.
  { apply (resolveMbql_is_Some names fl); [done | eauto]. }
  rewrite resolveMbql_normal in Hmbql by done. by injection Hmbql.
Qed.

(** C5: when the request for a table id fails, the extraction returns
    whenever it would return with any other answers of the metadata
    service.  The id is bound to the placeholder ["unknown_table_" + id]
    (its digits spelled out for a safe integer), and the placeholder is
    among [tables_used], which is sorted, free of repetitions and lists
    exactly the names bound.  No entry of the field lookup comes from that
    id: each comes from a field list that a successful request returned.
    Every other id is left as its own request decides: an id whose request
    succeeded is bound to its qualified name, which is listed, and every
    field of its table is in the field lookup, with that field's name and
    that table's name when no other field of a fetched table has the same
    id.  The cards are summarised one by one with these tables: a
    structured card carries, as its [source-table], the name bound to the
    id it names, and its filter resolved with this field lookup. *)
Theorem C5_fetch_failure_is_local (fetch fetch' : Z → option TableMetadata)
    (dashboard_id : Z) (dashboard : Value) (id : Z) :
  id ∈ (get_dashboard_queries fetch dashboard_id dashboard).1 →
  fetch id = None →
  is_Some (get_dashboard_queries fetch' dashboard_id dashboard).2 →
  ∃ tableIds out used cards placeholder,
    get_dashboard_queries fetch dashboard_id dashboard = (tableIds, Some (VObj out))
    ∧ Js.lookup "tables_used" out = VArr (VStr <$> used)
    ∧ Js.lookup "cards" out = VArr cards
    ∧ let t := fetchTables fetch tableIds in
      let fieldLookup := buildFieldLookup t in
      tableNames t !! id = Some placeholder
      ∧ (Js.isSafeInteger id = true →
         placeholder = "unknown_table_" +:+ Js.numToString id)
      ∧ placeholder ∈ used
      ∧ StronglySorted String.le used
      ∧ NoDup used
      ∧ (∀ x, x ∈ used ↔ ∃ tid, tableNames t !! tid = Some x)
      ∧ (∀ fid fi, fieldLookup !! fid = Some fi →
           ∃ tid md f, tid ∈ tableIds ∧ tid ≠ id ∧ fetch tid = Some md
                       ∧ f ∈ default [] (md_fields md)
                       ∧ f_id f = fid ∧ fi_name fi = f_name f
                       ∧ fi_table fi = Some (qualifiedName tid md))
      ∧ (∀ other md, other ∈ tableIds → fetch other = Some md →
           tableNames t !! other = Some (qualifiedName other md)
           ∧ qualifiedName other md ∈ used
           ∧ ∀ f, f ∈ default [] (md_fields md) →
               is_Some (fieldLookup !! f_id f)
               ∧ ((∀ tid' md' f', tid' ∈ tableIds → fetch tid' = Some md' →
                     f' ∈ default [] (md_fields md') → f_id f' = f_id f →
                     tid' = other ∧ f' = f) →
                  fieldLookup !! f_id f
                  = Some {| fi_name := f_name f;
                            fi_table := Some (qualifiedName other md) |}))
      ∧ Forall2 (λ dc summary, Js.get "dashcard_id" summary = Js.get "id" dc)
                (dashcardsOf dashboard) cards
      ∧ (∀ dc, dc ∈ dashcardsOf dashboard → queryTypeOf dc = "mbql" →
           ∃ summary mbql,
             VObj summary ∈ cards
             ∧ Js.lookup "dashcard_id" summary = Js.get "id" dc
             ∧ Js.lookup "mbql" summary = VObj mbql
             ∧ (∀ tid name,
                  Js.get "source-table" (structuredQueryOf dc) = VNum tid →
                  tableNames t !! tid = Some name →
                  Js.lookup "source-table" mbql = VStr name)
             ∧ (Js.truthy (Js.get "filter" (structuredQueryOf dc)) = true →
                Js.lookup "filter" mbql
                = resolveFieldRef fieldLookup
                    (Js.get "filter" (structuredQueryOf dc)))).
Proof.
  intros Hid Hfail Hok.
  destruct (extraction_returns fetch fetch' dashboard_id dashboard Hok)
    as (tableIds & out & Hrun).
  rewrite Hrun in Hid. simpl in Hid.
  destruct (extraction_inv fetch _ _ _ _ Hrun)
    as (tabLookup & cards & Hread & Hcards & Hc & _ & Hu).
  apply readDashboard_spec in Hread as [_ Hids].
  apply collectTableIds_spec in Hids as [_ Hmem].
  destruct (fetchTables_spec fetch tableIds) as (_ & Hnames & _).
  destruct (tablesUsed_spec (tableNames (fetchTables fetch tableIds)))
    as (Hsorted & Hnd & Hused).
  assert (tableNames (fetchTables fetch tableIds) !! id
          = Some ("unknown_table_" +:+ Js.numToString id)) as Hplace.
  { rewrite Hnames, bool_decide_eq_true_2 by done.
    unfold tableNameFor. by rewrite Hfail. }
  apply mapM_Some_1 in Hcards.
  exists tableIds, out, (tablesUsed (tableNames (fetchTables fetch tableIds))),
    cards, ("unknown_table_" +:+ Js.numToString id).
  split; [exact Hrun|]. split; [exact Hu|]. split; [exact Hc|].
  split; [exact Hplace|]. split; [done|]. split; [apply Hused; eauto|].
  split; [exact Hsorted|]. split; [exact Hnd|]. split; [exact Hused|].
  split; [|split; [|split]].
  - intros fid fi Hfi.
    apply buildFieldLookup_spec in Hfi
      as (tid & md & f & Htid & Hfetch & Hf & Hfid & Hname & Htable).
    exists tid, md, f. repeat split; try done.
    intros ->. congruence.
  - intros other md Hother Hfetch.
    assert (tableNames (fetchTables fetch tableIds) !! other
            = Some (qualifiedName other md)) as Hbound.
    { rewrite Hnames, bool_decide_eq_true_2 by done.
      unfold tableNameFor. by rewrite Hfetch. }
    split; [exact Hbound|]. split; [apply Hused; eauto|].
    intros f Hf.
    assert (is_Some (buildFieldLookup (fetchTables fetch tableIds) !! f_id f))
      as Hsome.
    { unfold buildFieldLookup.
      apply (fold_addFields_adds _ _ _ (other, md)); [|done].
      apply elem_of_recEntries_2. unfold fetchTables.
      apply fetch_loop_keeps; [done | by right]. }
    split; [exact Hsome|]. intros Huniq. destruct Hsome as [fi Hfi].
    rewrite Hfi. f_equal.
    apply buildFieldLookup_spec in Hfi
      as (tid' & md' & f' & Htid' & Hfetch' & Hf' & Hfid & Hname & Htable).
    destruct (Huniq tid' md' f' Htid' Hfetch' Hf' Hfid) as [-> ->].
    assert (md' = md) as -> by congruence.
    destruct fi as [n tb]. simpl in Hname, Htable. by subst.
  - eapply Forall2_impl; [exact Hcards|].
    intros dc summary Hsum. simpl in Hsum.
    by apply cardSummary_shape in Hsum as (s & -> & Hdc & _).
  - intros dc Hdc Htype.
    apply list_elem_of_lookup in Hdc as [i Hi].
    destruct (Forall2_lookup_l _ _ _ _ _ Hcards Hi) as (summary & Hsi & Hsum).
    apply structured_summary in Hsum as (s & -> & Hdcid & Hmbql); [|done].
    exists s, (resolvedMembers (tableNames (fetchTables fetch tableIds))
                 (buildFieldLookup (fetchTables fetch tableIds))
                 (structuredQueryOf dc)).
    split; [by eapply list_elem_of_lookup_2|].
    split; [done|]. split; [done|].
    destruct (resolvedMembers_lookup (tableNames (fetchTables fetch tableIds))
                (buildFieldLookup (fetchTables fetch tableIds))
                (structuredQueryOf dc))
      as (Hst & _ & Hfilter & _).
    split.
    + intros tid name Hsrc Hname. rewrite Hst.
      assert (tid ∈ tableIds) as Hin.
      { specialize (Hnames tid). rewrite Hname in Hnames.
        by case_bool_decide. }
      assert (tid ≠ 0) as Hne by (by apply Hmem in Hin as [? _]).
      rewrite (sourceTableValue_num _ _ tid) by done. simpl.
      apply tableName_bound; [done|].
      specialize (Hnames tid). rewrite bool_decide_eq_true_2 in Hnames by done.
      assert (name = tableNameFor fetch tid) as -> by congruence.
      apply tableNameFor_nonempty.
    + intros Ht. rewrite Hfilter. unfold copyValue. by rewrite Ht.
Qed.

Lemma C5_fetch_failure_is_local_witness :
  ∃ out,
    (get_dashboard_queries sampleFetch 1 sampleDashboard).2 = Some (VObj out)
    ∧ Js.lookup "tables_used" out
      = VArr [VStr "PUBLIC.ORDERS"; VStr "unknown_table_7"].
Proof.
  destruct (C5_fetch_failure_is_local sampleFetch (λ _, None) 1 sampleDashboard 7)
    as (tableIds & out & used & cards & placeholder & Heq & Hused & _).
  - vm_compute. apply elem_of_cons. right. apply elem_of_cons. by left.
  - reflexivity.
  - vm_compute. by eexists.
  - exists out. rewrite Heq. split; [reflexivity|].
    assert (Some (VObj out)
            = (get_dashboard_queries sampleFetch 1 sampleDashboard).2) as Hout
      by (by rewrite Heq).
    vm_compute in Hout. injection Hout as ->. vm_compute. reflexivity.
Defined.

(** ** More on the audit *)

Lemma filter_none {A} (P : A → Prop) `{!∀ x, Decision (P x)} (l : list A) :
  (∀ x, x ∈ l → ¬ P x) → filter P l = [].
Proof.
  induction l as [|x l IH]; intros Hall; [done|].
  rewrite filter_cons, decide_False by (apply Hall, elem_of_cons; by left).
  apply IH. intros y Hy. apply Hall, elem_of_cons. by right.
Qed.

Lemma filter_all {A} (P : A → Prop) `{!∀ x, Decision (P x)} (l : list A) :
  (∀ x, x ∈ l → P x) → filter P l = l.
Proof.
  induction l as [|x l IH]; intros Hall; [done|].
  rewrite filter_cons, decide_True by (apply Hall, elem_of_cons; by left).
  f_equal. apply IH. intros y Hy. apply Hall, elem_of_cons. by right.
Qed.

Lemma checkMapping_clean errors m pid :
  isNullish m = false →
  Js.toString (Js.get "parameter_id" m) = Some pid →
  ∃ errors', Audit.checkMapping errors m = Some errors'
             ∧ length errors'
               = (length errors + if mappingClean m then 0 else 1)%nat
             ∧ (mappingClean m = true → errors' = errors).
Proof.
  intros Hm Hpid. rewrite (checkMapping_spec _ _ pid) by done.
  eexists. split; [reflexivity|]. unfold mappingClean.
  destruct (Js.truthy (Js.get "target" m)); simpl.
  - destruct (Js.get "target" m) as [ | | | | | items | | ];
      try (split; [lia | done]).
    destruct (Js.isStr "dimension" (Js.at_ 0 items)); simpl;
      [|split; [lia | done]].
    destruct (existsb Audit.bearsStageNumber items); simpl.
    + split; [lia | done].
    + rewrite length_app. simpl. split; [lia | done].
  - rewrite length_app. simpl. split; [lia | done].
Qed.

Lemma checkMappings_count mappings errors :
  forallb mappingShaped mappings = true →
  ∃ errors', foldM Audit.checkMapping errors mappings = Some errors'
             ∧ length errors'
               = (length errors
                  + length (filter (λ m, mappingClean m = false) mappings))%nat.
Proof.
  revert errors. induction mappings as [|m mappings IH]; intros errors Hall;
    simpl in *.
  - exists errors. split; [done|]. lia.
  - apply andb_prop in Hall as [Hm Hall].
    apply mappingShaped_spec in Hm as (Hnull & pid & Hpid).
    destruct (checkMapping_clean errors m pid Hnull Hpid)
      as (errors1 & -> & Hlen & _).
    simpl. destruct (IH errors1 Hall) as (errors' & -> & Hlen').
    exists errors'. split; [done|]. rewrite Hlen', Hlen.
    rewrite filter_cons. destruct (mappingClean m); case_decide; try done;
      simpl; lia.
Qed.

(** X13: each mapping adds at most one error: a card's error list has one
    entry per mapping that has a falsy target or a ["dimension"] target
    without stage number, and is empty exactly when there is none. *)
Theorem audit_one_error_per_bad_mapping (parameterIds : list Value) (dc : Value) :
  dashcardShaped dc = true →
  ∃ c, Audit.auditCard parameterIds dc = Some c
       ∧ length (errors c)
         = length (filter (λ m, mappingClean m = false) (mappingsOf dc))
       ∧ (length (errors c) ≤ length (mappingsOf dc))%nat
       ∧ (errors c = [] ↔ forallb mappingClean (mappingsOf dc) = true).
Proof.
  intros Hdc.
  destruct (auditCard_spec parameterIds dc Hdc) as (c & Hc & _ & _ & Herr).
  assert (forallb mappingShaped (mappingsOf dc) = true) as Hshaped.
  { unfold dashcardShaped, mappingsOf in *. apply andb_prop in Hdc as [_ Hms].
    by destruct (Js.or (Js.get "parameter_mappings" dc) (VArr [])). }
  destruct (checkMappings_count (mappingsOf dc) [] Hshaped) as (errs & Herrs & Hlen).
  rewrite Herr in Herrs. injection Herrs as <-. simpl in Hlen.
  exists c. split; [done|]. split; [done|]. split.
  - rewrite Hlen. apply length_filter.
  - rewrite <- length_zero_iff_nil, Hlen, length_zero_iff_nil.
    rewrite forallb_forall. split.
    + intros Hnil m Hm. destruct (mappingClean m) eqn:Hclean; [done|].
      assert (m ∈ filter (λ m, mappingClean m = false) (mappingsOf dc)) as Hin
        by (apply list_elem_of_filter; split; [done | by apply list_elem_of_In]).
      rewrite Hnil in Hin. by apply elem_of_nil in Hin.
    + intros Hall. apply filter_none. intros m Hm Hbad.
      apply list_elem_of_In, Hall in Hm. congruence.
Qed.

Lemma audit_one_error_per_bad_mapping_witness :
  ∃ c, Audit.auditCard [VStr "p1"]
         (VObj [("parameter_mappings",
                 VArr [stagelessMapping; stagedMapping; zeroTargetMapping])])
       = Some c
       ∧ length (errors c) = 2%nat.
Proof.
  destruct (audit_one_error_per_bad_mapping [VStr "p1"]
              (VObj [("parameter_mappings",
                      VArr [stagelessMapping; stagedMapping; zeroTargetMapping])]))
    as (c & Hc & Hlen & _); [reflexivity|].
  exists c. split; [exact Hc|]. rewrite Hlen. reflexivity.
Defined.

(** X14: a dashcard without mappings (a text block, say) is connected to
    nothing and has no error, so every parameter of the dashboard is
    missing on it and it needs attention as soon as the dashboard has a
    parameter; on a dashboard without parameters nothing is ever missing. *)
Theorem audit_without_mappings (parameterIds : list Value) (dc : Value) :
  dashcardShaped dc = true →
  ∃ c, Audit.auditCard parameterIds dc = Some c
       ∧ (mappingsOf dc = [] →
            connected_params c = [] ∧ missing_params c = parameterIds
            ∧ errors c = []
            ∧ (Audit.hasIssues c = true ↔ parameterIds ≠ []))
       ∧ (parameterIds = [] → missing_params c = []).
Proof.
  intros Hdc.
  destruct (auditCard_spec parameterIds dc Hdc) as (c & Hc & Hconn & Hmiss & Herr).
  exists c. split; [done|]. split.
  - intros Hnone. rewrite Hnone in Hconn, Herr. simpl in Hconn, Herr.
    injection Herr as Herr.
    assert (missing_params c = parameterIds) as Hall.
    { rewrite Hmiss, Hconn. by apply filter_all. }
    split; [done|]. split; [done|]. split; [done|].
    pose proof (hasIssues_spec c) as Hspec.
    rewrite Hall in Hspec. rewrite <- Herr in Hspec. rewrite Hspec. tauto.
  - intros ->. by rewrite Hmiss.
Qed.

Lemma audit_without_mappings_witness :
  ∃ c, Audit.auditCard [VStr "p1"; VStr "p2"] (VObj [("id", VNum 4)]) = Some c
       ∧ missing_params c = [VStr "p1"; VStr "p2"]
       ∧ Audit.hasIssues c = true.
Proof.
  destruct (audit_without_mappings [VStr "p1"; VStr "p2"] (VObj [("id", VNum 4)]))
    as (c & Hc & Hnone & _); [reflexivity|].
  destruct (Hnone eq_refl) as (_ & Hmiss & _ & Hissues).
  exists c. split; [exact Hc|]. split; [exact Hmiss|].
  apply Hissues. discriminate.
Defined.

(** What the audit reads off a dashcard besides its mappings. *)
Lemma auditCard_inv parameterIds dc c :
  Audit.auditCard parameterIds dc = Some c →
  source_table c
  = (if Js.truthy (Js.getOpt "source-table" (cardQuery dc))
     then Js.getOpt "source-table" (cardQuery dc) else VNull)
  ∧ is_native_query c
    = Js.isStr "native"
        (Js.getOpt "type" (Js.get "dataset_query" (Js.or (Js.get "card" dc) (VObj []))))
  ∧ dashcard_id c = Js.get "id" dc
  ∧ card_id c = Js.get "card_id" dc.
Proof.
  unfold Audit.auditCard, cardQuery.
  destruct (Js.getE "card" dc) as [card|] eqn:Hcard; [|done].
  assert (card = Js.get "card" dc) as ->
    by (destruct dc; simpl in Hcard |- *; congruence).
  cbn [mbind option_bind].
  destruct (Js.asArray _) as [mappings|]; [|done]. cbn [mbind option_bind].
  destruct (mapM _ mappings) as [connected|]; [|done]. cbn [mbind option_bind].
  destruct (foldM _ _ mappings) as [errs|]; [|done]. cbn [mbind option_bind].
  by intros [= <-].
Qed.

Lemma audit_inv dashboard report :
  Audit.audit_dashboard_filters dashboard = Some report →
  ∃ parameterIds,
    parameter_ids report = parameterIds
    ∧ Forall2 (λ dc c, Audit.auditCard parameterIds dc = Some c)
              (dashcardsOf dashboard) (all_cards report)
    ∧ cards_needing_attention report
      = filter (λ c, Audit.hasIssues c = true) (all_cards report)
    ∧ total_cards report = length (dashcardsOf dashboard)
    ∧ total_parameters report = length parameterIds
    ∧ cards_with_issues report = length (cards_needing_attention report).
Proof.
  unfold Audit.audit_dashboard_filters, dashcardsOf.
  destruct (Js.getE "dashcards" dashboard) as [dcs|] eqn:Hdcs; [|done].
  assert (dcs = Js.get "dashcards" dashboard) as ->
    by (destruct dashboard; simpl in Hdcs |- *; congruence).
  cbn [mbind option_bind].
  destruct (Js.or (Js.get "dashcards" dashboard) (VArr []))
    as [ | | | | | dashcards | | ]; try done.
  cbn [Js.asArray mbind option_bind].
  destruct (Js.asArray _) as [parameters|]; [|done]. cbn [mbind option_bind].
  destruct (mapM _ parameters) as [parameterIds|] eqn:Hids; [|done].
  cbn [mbind option_bind].
  destruct (mapM _ dashcards) as [cards|] eqn:Hcards; [|done].
  cbn [mbind option_bind]. intros [= <-]. simpl.
  exists parameterIds. repeat split; try done.
  - by apply mapM_Some_1.
  - by apply length_mapM in Hids.
Qed.

(** X15: the counts of a report agree with its lists: [total_cards] counts
    the dashcards and the audited cards, [total_parameters] the parameter
    ids, [cards_with_issues] the cards needing attention, which are never
    more than the cards, and are none exactly when no card has a missing
    parameter or an error. *)
Theorem audit_counts (dashboard : Value) (report : AuditReport) :
  Audit.audit_dashboard_filters dashboard = Some report →
  total_cards report = length (dashcardsOf dashboard)
  ∧ total_cards report = length (all_cards report)
  ∧ total_parameters report = length (parameter_ids report)
  ∧ cards_with_issues report = length (cards_needing_attention report)
  ∧ (cards_with_issues report ≤ total_cards report)%nat
  ∧ (cards_with_issues report = 0%nat ↔
     ∀ c, c ∈ all_cards report → missing_params c = [] ∧ errors c = []).
Proof.
  intros Haudit.
  apply audit_inv in Haudit
    as (pids & Hpids & Hall & Hfilter & Htotal & Hparams & Hissues).
  assert (total_cards report = length (all_cards report)) as Hlen
    by (by rewrite Htotal, (Forall2_length _ _ _ Hall)).
  split; [done|]. split; [done|]. split; [by rewrite Hpids|].
  split; [done|]. split.
  - rewrite Hissues, Hlen, Hfilter. apply length_filter.
  - rewrite Hissues, length_zero_iff_nil, Hfilter. split.
    + intros Hnil c Hc.
      destruct (Audit.hasIssues c) eqn:Hi.
      * assert (c ∈ filter (λ c, Audit.hasIssues c = true) (all_cards report))
          as Hin by (by apply list_elem_of_filter).
        rewrite Hnil in Hin. by apply elem_of_nil in Hin.
      * pose proof (hasIssues_spec c) as Hspec. rewrite Hi in Hspec.
        destruct (missing_params c), (errors c); try done;
          exfalso; assert (false = true) by (apply Hspec; auto); done.
    + intros Hclean. apply filter_none. intros c Hc Hi.
      apply hasIssues_spec in Hi. destruct (Hclean c Hc) as [Hm He].
      by destruct Hi.
Qed.

Lemma audit_counts_witness :
  ∃ report,
    Audit.audit_dashboard_filters auditedDashboard = Some report
    ∧ total_cards report = 1%nat ∧ cards_with_issues report = 1%nat.
Proof.
  destruct (Audit.audit_dashboard_filters auditedDashboard) as [report|] eqn:Hr;
    [|vm_compute in Hr; discriminate].
  destruct (audit_counts auditedDashboard report Hr) as (Ht & _).
  exists report. split; [reflexivity|]. split; [rewrite Ht; reflexivity|].
  vm_compute in Hr. injection Hr as <-. reflexivity.
Defined.

(** X16: the two tools read the same table ids: a number that the audit
    reports as a card's [source_table] is a table id for which an
    extraction of the same dashboard, when it returns, has requested the
    metadata. *)
Theorem audited_source_table_is_requested (fetch : Z → option TableMetadata)
    (dashboard_id : Z) (dashboard : Value) (report : AuditReport)
    (c : CardAudit) (id : Z) :
  Audit.audit_dashboard_filters dashboard = Some report →
  c ∈ all_cards report → source_table c = VNum id →
  is_Some (get_dashboard_queries fetch dashboard_id dashboard).2 →
  id ∈ (get_dashboard_queries fetch dashboard_id dashboard).1.
Proof.
  intros Haudit Hc Hst Hok.
  apply audit_inv in Haudit as (pids & _ & Hall & _).
  apply list_elem_of_lookup in Hc as [i Hi].
  destruct (Forall2_lookup_r _ _ _ _ _ Hall Hi) as (dc & Hdc & Hcard).
  apply auditCard_inv in Hcard as (Hsrc & _).
  rewrite Hst in Hsrc.
  destruct (Js.truthy (Js.getOpt "source-table" (cardQuery dc))) eqn:Htruthy;
    [|done].
  destruct Hok as [out Hout].
  destruct (get_dashboard_queries fetch dashboard_id dashboard)
    as [requests res] eqn:Hq.
  simpl in Hout |- *. subst res.
  apply extraction_inv in Hq as (tabLookup & cards & Hread & _).
  apply readDashboard_spec in Hread as [_ Hids].
  apply collectTableIds_spec in Hids as [_ Hmem].
  apply Hmem. split.
  - intros ->. by rewrite <- Hsrc in Htruthy.
  - exists dc. split; [by eapply list_elem_of_lookup_2 | by left].
Qed.

Lemma audited_source_table_is_requested_witness :
  2 ∈ (get_dashboard_queries sampleFetch 1 sampleDashboard).1.
Proof.
  destruct (Audit.audit_dashboard_filters sampleDashboard) as [report|] eqn:Hr;
    [|vm_compute in Hr; discriminate].
  assert (∃ c, c ∈ all_cards report ∧ source_table c = VNum 2) as (c & Hc & Hst).
  { vm_compute in Hr. injection Hr as <-. eexists. split.
    - apply elem_of_cons. left. reflexivity.
    - reflexivity. }
  apply (audited_source_table_is_requested sampleFetch 1 sampleDashboard report c 2
           Hr Hc Hst).
  vm_compute. by eexists.
Defined.

Lemma isStr_native_type dq :
  Js.isStr "native" (Js.getOpt "type" dq)
  = Js.isStr "native" (Js.get "type" (Js.or dq (VObj []))).
Proof.
  unfold Js.or. destruct dq as [ | | [] | n | s | | | ]; try done.
  - simpl. by destruct (n =? 0).
  - simpl. by destruct (String.eqb s "").
Qed.

(** X17: the audit's [is_native_query] flag and the extractor's
    classification agree on every dashcard that has a card id: the flag is
    set exactly when the extractor summarises the card as [native].  On a
    dashcard without a card id the extractor says [virtual] whatever the
    flag. *)
Theorem native_flag_agrees (parameterIds : list Value) (dc : Value) (c : CardAudit) :
  Audit.auditCard parameterIds dc = Some c →
  isNativeCard dc = Js.truthy (Js.get "card_id" dc) && is_native_query c
  ∧ (Js.truthy (Js.get "card_id" dc) = true →
       (is_native_query c = true ↔ queryTypeOf dc = "native")).
Proof.
  intros Hc. apply auditCard_inv in Hc as (_ & Hnative & _).
  rewrite isStr_native_type in Hnative.
  assert (isNativeCard dc = Js.truthy (Js.get "card_id" dc) && is_native_query c)
    as Heq by (by rewrite Hnative).
  split; [done|]. intros Hid. unfold queryTypeOf. rewrite Heq, Hid. simpl.
  by destruct (is_native_query c).
Qed.

Lemma native_flag_agrees_witness :
  ∃ c, Audit.auditCard [] (nativeCard 6 (VStr "select 1")) = Some c
       ∧ is_native_query c = true.
Proof.
  destruct (Audit.auditCard [] (nativeCard 6 (VStr "select 1"))) as [c|] eqn:Hc;
    [|vm_compute in Hc; discriminate].
  destruct (native_flag_agrees [] _ c Hc) as [_ Hiff].
  exists c. split; [reflexivity|]. apply Hiff; reflexivity.
Defined.

(** ** The dashboard search *)

Lemma string_app_cons c s1 s2 : String c s1 +:+ s2 = String c (s1 +:+ s2).
Proof. reflexivity. Qed.

Lemma prefix_spec needle hay :
  String.prefix needle hay = true ↔ ∃ after, hay = needle +:+ after.
Proof.
  revert needle. induction hay as [|c' hay IH]; intros [|c needle]; simpl.
  - split; [by exists "" | done].
  - split; [done | intros [after Heq]; by rewrite string_app_cons in Heq].
  - split; [eauto | done].
  - destruct (Ascii.ascii_dec c c') as [->|Hne].
    + rewrite IH. split; intros [after Heq]; exists after;
        rewrite string_app_cons in *; congruence.
    + split; [done|]. intros [after Heq]. rewrite string_app_cons in Heq.
      congruence.
Qed.

Lemma strIncludes_spec needle hay :
  Search.strIncludes needle hay = true ↔
  ∃ before after, hay = before +:+ needle +:+ after.
Proof.
  induction hay as [|c hay IH]; cbn [Search.strIncludes].
  - rewrite orb_false_r, prefix_spec. split.
    + intros [after Heq]. exists "", after. done.
    + intros (before & after & Heq). destruct before as [|c before].
      * eauto.
      * by rewrite string_app_cons in Heq.
  - rewrite orb_true_iff, IH, prefix_spec. split.
    + intros [[after Heq]|(before & after & Heq)].
      * exists "", after. done.
      * exists (String c before), after.
        by rewrite string_app_cons, Heq.
    + intros (before & after & Heq). destruct before as [|c' before].
      * left. eauto.
      * right. rewrite string_app_cons in Heq. injection Heq as -> ->. eauto.
Qed.

Lemma filterM_spec {A} (f : A → option bool) items :
  (∀ r, Search.filterM f items = Some r →
        r = filter (λ x, f x = Some true) items
        ∧ ∀ x, x ∈ items → is_Some (f x))
  ∧ (Search.filterM f items = None ↔ ∃ x, x ∈ items ∧ f x = None).
Proof.
  induction items as [|x items [IHsome IHnone]]; simpl.
  - split.
    + intros r [= <-]. split; [done|]. intros x Hx. by apply elem_of_nil in Hx.
    + split; [done|]. intros (x & Hx & _). by apply elem_of_nil in Hx.
  - destruct (f x) as [keep|] eqn:Hfx; simpl.
    + destruct (Search.filterM f items) as [rest|]; simpl.
      * destruct (IHsome rest eq_refl) as [-> Hall]. split.
        -- intros r [= <-]. split.
           ++ rewrite filter_cons. destruct keep; case_decide; congruence.
           ++ intros y Hy. apply elem_of_cons in Hy as [->|Hy]; [eauto | auto].
        -- split; [done|]. intros (y & Hy & Hnone).
           apply elem_of_cons in Hy as [->|Hy]; [congruence|].
           destruct (Hall y Hy). congruence.
      * split; [done|]. split; [|done]. intros _.
        destruct (proj1 IHnone eq_refl) as (y & Hy & Hnone).
        exists y. split; [apply elem_of_cons; by right | done].
    + split; [done|]. split; [|done]. intros _.
      exists x. split; [apply elem_of_cons; by left | done].
Qed.

Section SearchFacts.

Variable toLowerCase : string → string.

Local Abbreviation matchesCI := (Search.matches toLowerCase).
Local Abbreviation search := (Search.search_dashboards toLowerCase).

Lemma fieldMatches_true query v :
  Search.fieldMatches toLowerCase query v = Some true ↔
  mentions toLowerCase query v.
Proof.
  unfold mentions. destruct v as [ | | | | s | | | ]; simpl;
    try (split; [done | intros (? & ? & ? & [=] & _)]).
  split.
  - intros [= Hinc]. apply strIncludes_spec in Hinc as (b & a & Heq). eauto.
  - intros (s' & b & a & [= <-] & Heq). f_equal.
    apply strIncludes_spec. eauto.
Qed.

Lemma fieldMatches_None query v :
  Search.fieldMatches toLowerCase query v = None ↔ isTextOrMissing v = false.
Proof. by destruct v. Qed.

(** When a dashboard matches. *)
Lemma matches_true query d :
  matchesCI query d = Some true ↔
  isNullish d = false
  ∧ (mentions toLowerCase query (Js.get "name" d)
     ∨ (isTextOrMissing (Js.get "name" d) = true
        ∧ mentions toLowerCase query (Js.get "description" d))).
Proof.
  unfold Search.matches.
  destruct (isNullish d) eqn:Hnull.
  { destruct d; try done; simpl; (split; [done | intros [[=] _]]). }
  rewrite getE_not_nullish by done. cbn [mbind option_bind].
  rewrite <- !fieldMatches_true.
  pose proof (fieldMatches_None query (Js.get "name" d)) as Hnone.
  destruct (Search.fieldMatches toLowerCase query (Js.get "name" d))
    as [[]|]; cbn [mbind option_bind].
  - split; [auto | done].
  - split.
    + intros Hdesc. split; [done|]. right. split; [|done].
      destruct (isTextOrMissing (Js.get "name" d)); [done|].
      pose proof (proj2 Hnone eq_refl) as Habs. discriminate.
    + intros [_ [[=]|[_ ?]]]. done.
  - split; [done|]. intros [_ [[=]|[Hname _]]].
    pose proof (proj1 Hnone eq_refl) as Habs. congruence.
Qed.

Lemma matches_None query d :
  matchesCI query d = None ↔
  isNullish d = true
  ∨ isTextOrMissing (Js.get "name" d) = false
  ∨ (¬ mentions toLowerCase query (Js.get "name" d)
     ∧ isTextOrMissing (Js.get "description" d) = false).
Proof.
  unfold Search.matches.
  destruct (isNullish d) eqn:Hnull.
  { destruct d; try done; simpl; (split; auto). }
  rewrite getE_not_nullish by done. cbn [mbind option_bind].
  rewrite <- !fieldMatches_true, <- !(fieldMatches_None query).
  destruct (Search.fieldMatches toLowerCase query (Js.get "name" d))
    as [[]|]; cbn [mbind option_bind].
  - split; [done|]. intros [[=]|[[=]|[Hno _]]]. by destruct Hno.
  - split.
    + intros Hdesc. right. right. split; [done | done].
    + intros [[=]|[[=]|[_ ?]]]. done.
  - split; [auto | done].
Qed.

(** X18: a search that returns gives back, in the order of the list,
    dashboards that all match; without a limit it gives back every
    dashboard that matches: those whose name contains the query, case
    aside, and those whose description does. *)
Theorem search_returns_the_matches dashboards query limit results :
  search dashboards query limit = Some results →
  results `sublist_of` dashboards
  ∧ (∀ d, d ∈ results →
       mentions toLowerCase query (Js.get "name" d)
       ∨ mentions toLowerCase query (Js.get "description" d))
  ∧ (limit = None →
     ∀ d, d ∈ results ↔
          d ∈ dashboards
          ∧ (mentions toLowerCase query (Js.get "name" d)
             ∨ mentions toLowerCase query (Js.get "description" d))).
Proof.
  unfold Search.search_dashboards. intros Hsearch.
  destruct (Search.filterM _ dashboards) as [filtered|] eqn:Hf; [|done].
  destruct (proj1 (filterM_spec _ _) _ Hf) as [-> Hall].
  simpl in Hsearch. injection Hsearch as <-.
  assert (∀ d, d ∈ filter (λ x, matchesCI query x = Some true) dashboards ↔
               d ∈ dashboards
               ∧ (mentions toLowerCase query (Js.get "name" d)
                  ∨ mentions toLowerCase query (Js.get "description" d)))
    as Hmem.
  { intros d. rewrite list_elem_of_filter, matches_true. split.
    - intros [(_ & [?|[_ ?]]) ?]; auto.
    - intros [Hd Hm]. split; [|done].
      destruct (Hall d Hd) as [b Hb].
      assert (isNullish d = false) as Hnull.
      { destruct (isNullish d) eqn:Hn; [|done].
        assert (matchesCI query d = None) by (apply matches_None; auto).
        congruence. }
      split; [done|].
      assert (isTextOrMissing (Js.get "name" d) = true) as Hname.
      { destruct (isTextOrMissing (Js.get "name" d)) eqn:Hn; [done|].
        assert (matchesCI query d = None) by (apply matches_None; auto).
        congruence. }
      destruct Hm; auto. }
  assert (∀ l : list Value,
            l `sublist_of` filter (λ x, matchesCI query x = Some true) dashboards →
            l `sublist_of` dashboards
            ∧ ∀ d, d ∈ l →
                   mentions toLowerCase query (Js.get "name" d)
                   ∨ mentions toLowerCase query (Js.get "description" d))
    as Hsub.
  { intros l Hl. split.
    - etrans; [exact Hl | apply sublist_filter].
    - intros d Hd. eapply Hmem, elem_of_sublist; done. }
  destruct limit as [n|].
  - destruct (n =? 0); cbn [negb].
    + destruct (Hsub _ (reflexivity _)) as [H1 H2].
      split; [done|]. split; [done|]. intros [=].
    + destruct (Hsub (Search.slice0 n
                        (filter (λ x, matchesCI query x = Some true) dashboards)))
        as [H1 H2].
      { unfold Search.slice0. destruct (0 <=? n); apply sublist_take. }
      split; [done|]. split; [done|]. intros [=].
  - destruct (Hsub _ (reflexivity _)) as [H1 H2].
    split; [done|]. split; [done|]. intros _. exact Hmem.
Qed.

(** X19: the limit cuts the list of matches at its end: with a positive
    limit at most that many dashboards come back, the first ones; a
    limit of 0 is read as no limit; a negative limit drops that many
    matches from the end. *)
Theorem search_limit dashboards query n all_matches :
  Search.search_dashboards toLowerCase dashboards query None
  = Some all_matches →
  ∃ results,
    Search.search_dashboards toLowerCase dashboards query (Some n)
    = Some results
    ∧ results `prefix_of` all_matches
    ∧ (0 < n → length results = Nat.min (Z.to_nat n) (length all_matches))
    ∧ (n = 0 → results = all_matches)
    ∧ (n < 0 → length results = (length all_matches - Z.to_nat (- n))%nat).
Proof.
  unfold Search.search_dashboards.
  destruct (Search.filterM _ dashboards) as [filtered|]; [|done].
  simpl. intros [= <-]. eexists. split; [reflexivity|].
  destruct (Z.eqb_spec n 0) as [->|Hne]; simpl.
  - split; [done|]. split; [lia|]. split; [done | lia].
  - unfold Search.slice0. destruct (Z.leb_spec 0 n).
    + split; [apply prefix_take|]. split; [|split; [done | lia]].
      intros _. apply length_take.
    + split; [apply prefix_take|]. split; [lia|]. split; [done|].
      intros _. rewrite length_take. lia.
Qed.

(** X20: the search throws exactly when some dashboard of the list is
    [null], has a name that is there and is not a string, or has such a
    description while its name does not match; a description that is not
    a string does no harm when the name matches. *)
Theorem search_throws_iff dashboards query limit :
  search dashboards query limit = None ↔
  ∃ d, d ∈ dashboards
       ∧ (isNullish d = true
          ∨ isTextOrMissing (Js.get "name" d) = false
          ∨ (¬ mentions toLowerCase query (Js.get "name" d)
             ∧ isTextOrMissing (Js.get "description" d) = false)).
Proof.
  unfold Search.search_dashboards.
  pose proof (proj2 (filterM_spec (matchesCI query) dashboards)) as Hnone.
  destruct (Search.filterM _ dashboards) as [filtered|]; simpl.
  - split; [done|]. intros (d & Hd & Hbad).
    assert (Some filtered = None) as Habs; [|done].
    apply Hnone. exists d. split; [done|]. by apply matches_None.
  - split; [|done]. intros _.
    destruct (proj1 Hnone eq_refl) as (d & Hd & Hm).
    exists d. split; [done|]. by apply matches_None.
Qed.

(** X21: with an empty query a search without limit gives back every
    dashboard that has a name or a description (the empty string is part
    of every string). *)
Theorem search_empty_query dashboards results :
  toLowerCase "" = "" →
  search dashboards "" None = Some results →
  ∀ d, d ∈ results ↔
       d ∈ dashboards
       ∧ ((∃ s, Js.get "name" d = VStr s) ∨ (∃ s, Js.get "description" d = VStr s)).
Proof.
  intros Hempty Hsearch d.
  assert (∀ v, mentions toLowerCase "" v ↔ ∃ s, v = VStr s) as Hm.
  { intros v. unfold mentions. rewrite Hempty. split.
    - intros (s & _ & _ & -> & _). eauto.
    - intros [s ->]. exists s, "", (toLowerCase s). done. }
  unfold Search.search_dashboards in Hsearch.
  destruct (Search.filterM _ dashboards) as [filtered|] eqn:Hf; [|done].
  destruct (proj1 (filterM_spec _ _) _ Hf) as [-> Hall].
  simpl in Hsearch. injection Hsearch as <-.
  rewrite list_elem_of_filter, matches_true, !Hm. split.
  - intros [(_ & [?|[_ ?]]) ?]; auto.
  - intros [Hd Hhas]. split; [|done].
    destruct (Hall d Hd) as [b Hb].
    assert (isNullish d = false) as Hnull.
    { destruct (isNullish d) eqn:Hn; [|done].
      assert (matchesCI "" d = None) by (apply matches_None; auto).
      congruence. }
    split; [done|].
    assert (isTextOrMissing (Js.get "name" d) = true) as Hname.
    { destruct (isTextOrMissing (Js.get "name" d)) eqn:Hn; [done|].
      assert (matchesCI "" d = None) by (apply matches_None; auto).
      congruence. }
    destruct Hhas; auto.
Qed.

End SearchFacts.

Lemma search_returns_the_matches_witness :
  ∃ results,
    Search.search_dashboards Search.asciiLower sampleDashboards "SALES" None
    = Some results
    ∧ results `sublist_of` sampleDashboards
    ∧ length results = 3%nat.
Proof.
  destruct (Search.search_dashboards Search.asciiLower sampleDashboards "SALES" None)
    as [results|] eqn:Hs; [|vm_compute in Hs; discriminate].
  destruct (search_returns_the_matches _ _ _ _ _ Hs) as (Hsub & _).
  exists results. split; [reflexivity|]. split; [exact Hsub|].
  vm_compute in Hs. injection Hs as <-. reflexivity.
Defined.

Lemma search_limit_witness :
  ∃ results,
    Search.search_dashboards Search.asciiLower sampleDashboards "sales" (Some (-1))
    = Some results
    ∧ length results = 2%nat.
Proof.
  destruct (Search.search_dashboards Search.asciiLower sampleDashboards "sales" None)
    as [all_matches|] eqn:Hs; [|vm_compute in Hs; discriminate].
  destruct (search_limit Search.asciiLower sampleDashboards "sales" (-1) all_matches Hs)
    as (results & Hr & _ & _ & _ & Hneg).
  exists results. split; [exact Hr|]. rewrite Hneg by reflexivity.
  vm_compute in Hs. injection Hs as <-. reflexivity.
Defined.

Lemma search_throws_iff_witness :
  Search.search_dashboards Search.asciiLower
    [VObj [("name", VStr "Sales"); ("description", VNum 3)];
     VObj [("name", VNum 7)]] "sales" None
  = None.
Proof.
  apply search_throws_iff. exists (VObj [("name", VNum 7)]).
  split; [apply elem_of_cons; right; apply elem_of_cons; by left|].
  right. left. reflexivity.
Defined.

Lemma search_empty_query_witness :
  ∃ results,
    Search.search_dashboards Search.asciiLower sampleDashboards "" None
    = Some results
    ∧ VObj [("id", VNum 3); ("name", VStr "Ops")] ∈ results.
Proof.
  destruct (Search.search_dashboards Search.asciiLower sampleDashboards "" None)
    as [results|] eqn:Hs; [|vm_compute in Hs; discriminate].
  exists results. split; [reflexivity|].
  apply (search_empty_query Search.asciiLower sampleDashboards results);
    [reflexivity | exact Hs |].
  split.
  - do 2 (apply elem_of_cons; right). apply elem_of_cons. by left.
  - left. by exists "Ops".
Defined.

(** ** The tool filter options *)

(** X22: the mode depends only on which of [--all] and [--write] occur
    after the first two entries of the argument vector: [all] when
    [--all] occurs, else [write] when [--write] occurs, else [essential].
    Order, repetition, other arguments and [--essential] change nothing. *)
Theorem tool_filter_mode (argv argv' : list string) :
  let mode_of argv := ToolFilters.mode (ToolFilters.parseToolFilterOptions argv) in
  (mode_of argv = ToolFilters.all ↔ "--all" ∈ drop 2 argv)
  ∧ (mode_of argv = ToolFilters.write ↔
       ("--write" ∈ drop 2 argv) ∧ ("--all" ∉ drop 2 argv))
  ∧ (mode_of argv = ToolFilters.essential ↔
       ("--write" ∉ drop 2 argv) ∧ ("--all" ∉ drop 2 argv))
  ∧ (("--all" ∈ drop 2 argv ↔ "--all" ∈ drop 2 argv') →
     ("--write" ∈ drop 2 argv ↔ "--write" ∈ drop 2 argv') →
     ToolFilters.parseToolFilterOptions argv
     = ToolFilters.parseToolFilterOptions argv').
Proof.
  intros mode_of. unfold mode_of, ToolFilters.parseToolFilterOptions.
  split; [|split; [|split]].
  - repeat case_bool_decide; simpl; split; try done.
  - repeat case_bool_decide; simpl; split; try done; try tauto;
      intros [? ?]; done.
  - repeat case_bool_decide; simpl; split; try done; try tauto;
      intros [? ?]; done.
  - intros Hall Hwrite. repeat case_bool_decide; try done; tauto.
Qed.

Lemma tool_filter_mode_witness :
  ToolFilters.parseToolFilterOptions ["node"; "server.js"; "--essential"; "--write"]
  = ToolFilters.parseToolFilterOptions ["node"; "--all"; "--write"; "--verbose"].
Proof.
  destruct (tool_filter_mode ["node"; "server.js"; "--essential"; "--write"]
              ["node"; "--all"; "--write"; "--verbose"]) as (_ & _ & _ & Hext).
  apply Hext; simpl; split; intros Hin; apply list_elem_of_In in Hin;
    simpl in Hin; apply list_elem_of_In; simpl; intuition discriminate.
Defined.

(** ** Text blocks *)

(** X23: the card data of a text block always has a width and a height
    that are not 0: a missing or zero [size_x] becomes 18, a missing or
    zero [size_y] becomes 1 for a heading and 2 for anything else; a
    missing row or column becomes 0; the text is carried as it is and the
    dashboard id is not part of the card data. *)
Theorem text_block_defaults (args : Value) :
  let card := TextBlock.cardData args in
  Js.truthy (Js.get "size_x" card) = true
  ∧ Js.truthy (Js.get "size_y" card) = true
  ∧ (Js.truthy (Js.get "size_x" args) = false → Js.get "size_x" card = VNum 18)
  ∧ (Js.truthy (Js.get "size_y" args) = false →
       Js.get "size_y" card
       = if Js.isStr "heading" (Js.get "display_type" args) then VNum 1 else VNum 2)
  ∧ (∀ k, k ∈ ["row"; "col"; "size_x"; "size_y"] →
          Js.truthy (Js.get k args) = true → Js.get k card = Js.get k args)
  ∧ (∀ k, k ∈ ["row"; "col"] →
          Js.truthy (Js.get k args) = false → Js.get k card = VNum 0)
  ∧ Js.get "text" (Js.get "visualization_settings" card) = Js.get "text" args
  ∧ Js.get "dashboard_id" card = VUndef.
Proof.
  intros card. unfold card, TextBlock.cardData. simpl. unfold Js.or.
  split; [|split; [|split; [|split; [|split; [|split; [|split]]]]]].
  - by destruct (Js.truthy (Js.get "size_x" args)) eqn:Hx.
  - destruct (Js.truthy (Js.get "size_y" args)) eqn:Hy; [done|].
    by destruct (Js.isStr "heading" _).
  - by intros ->.
  - intros ->. destruct (Js.truthy (Js.get "display_type" args)) eqn:Hd; [done|].
    destruct (Js.get "display_type" args) as [ | | | | s | | | ]; try done.
    simpl in Hd |- *. destruct (String.eqb_spec s ""); [by subst | done].
  - intros k Hk Ht. apply list_elem_of_In in Hk. simpl in Hk.
    destruct Hk as [<-|[<-|[<-|[<-|[]]]]]; simpl; by rewrite Ht.
  - intros k Hk Ht. apply list_elem_of_In in Hk. simpl in Hk.
    destruct Hk as [<-|[<-|[]]]; simpl; by rewrite Ht.
  - done.
  - done.
Qed.

Lemma text_block_defaults_witness :
  Js.get "size_y"
    (TextBlock.cardData (VObj [("text", VStr "# Title"); ("display_type", VStr "heading");
                               ("size_y", VNum 0)]))
  = VNum 1.
Proof.
  destruct (text_block_defaults
              (VObj [("text", VStr "# Title"); ("display_type", VStr "heading");
                     ("size_y", VNum 0)])) as (_ & _ & _ & Hy & _).
  apply Hy. reflexivity.
Defined.

(** X24: the card data of a text block, read as a dashcard, is what the
    extractor takes for a virtual card: whatever the tables, it is
    summarised as [virtual] with the block's text (or [null] when the text
    is empty), provided its tab id can be used as a member name. *)
Theorem text_block_is_virtual (names : gmap Z string)
    (fieldLookup : gmap Z FieldInfo) (tabLookup : list (string * Value))
    (args : Value) :
  is_Some (Js.toString (Js.get "dashboard_tab_id" args)) →
  ∃ summary,
    cardSummary names fieldLookup tabLookup (TextBlock.cardData args)
    = Some (VObj summary)
    ∧ Js.lookup "query_type" summary = VStr "virtual"
    ∧ Js.lookup "card_id" summary = VNull
    ∧ Js.lookup "text" summary = Js.or (Js.get "text" args) VNull.
Proof.
  intros [key Hkey]. unfold cardSummary, TextBlock.cardData.
  cbn [Js.getE Js.get Js.lookup String.eqb Ascii.eqb Bool.eqb mbind option_bind].
  rewrite Hkey.
  destruct (Js.truthy (Js.get "dashboard_tab_id" args));
    cbn [mbind option_bind Js.truthy negb]; eexists; done.
Qed.

Lemma text_block_is_virtual_witness :
  ∃ summary,
    cardSummary sampleTables sampleFields []
      (TextBlock.cardData (VObj [("dashboard_id", VNum 1); ("text", VStr "Notes")]))
    = Some (VObj summary)
    ∧ Js.lookup "text" summary = VStr "Notes".
Proof.
  destruct (text_block_is_virtual sampleTables sampleFields []
              (VObj [("dashboard_id", VNum 1); ("text", VStr "Notes")]))
    as (summary & Heq & _ & _ & Htext); [by eexists|].
  exists summary. split; [exact Heq | exact Htext].
Defined.

(** ** The order of the requests *)

Lemma addTableId_fold v tableIds :
  addTableId v tableIds
  = foldl (λ s x, setAdd x s) tableIds
          (match tableId v with Some id => [id] | None => [] end).
Proof. unfold addTableId. by destruct (tableId v). Qed.

Lemma joins_loop_fold joins tableIds r :
  foldM (λ tableIds j, st ← Js.getE "source-table" j; Some (addTableId st tableIds))
        tableIds joins = Some r →
  r = foldl (λ s x, setAdd x s) tableIds
        (flat_map (λ j, match tableId (Js.get "source-table" j) with
                        | Some id => [id] | None => [] end) joins).
Proof.
  revert tableIds. induction joins as [|j joins IH]; intros tableIds; simpl.
  - by intros [= <-].
  - destruct (Js.getE "source-table" j) as [st|] eqn:Hst; [|done].
    assert (st = Js.get "source-table" j) as ->
      by (destruct j; simpl in Hst |- *; congruence).
    simpl. intros Hfold. apply IH in Hfold as ->.
    by rewrite foldl_app, addTableId_fold.
Qed.

Lemma collectCard_fold tableIds dc r :
  collectCard tableIds dc = Some r →
  r = foldl (λ s x, setAdd x s) tableIds (idsOfCard dc).
Proof.
  unfold collectCard, idsOfCard, cardQuery.
  destruct (Js.getE "card" dc) as [card|] eqn:Hcard; [|done]. simpl.
  assert (card = Js.get "card" dc) as ->
    by (destruct dc; simpl in Hcard |- *; congruence).
  set (query := Js.getOpt "query" _).
  rewrite foldl_app, <- addTableId_fold.
  destruct (Js.truthy (Js.getOpt "joins" query)) eqn:Hjoins.
  - rewrite (getOpt_truthy _ _ Hjoins).
    destruct (Js.getOpt "joins" query) as [ | | | | | joins | | ]; try done.
    simpl. apply joins_loop_fold.
  - intros [= <-].
    by destruct (Js.getOpt "joins" query) as [ | | | | | joins | | ].
Qed.

(** X25: the metadata requests of a call are made in the order in which
    the dashboard first names the tables, card by card, a card's own
    [source-table] before those of its joins. *)
Theorem requests_in_order_of_first_mention (fetch : Z → option TableMetadata)
    (dashboard_id : Z) (dashboard : Value) :
  is_Some (readDashboard dashboard) →
  (get_dashboard_queries fetch dashboard_id dashboard).1
  = setFrom (flat_map idsOfCard (dashcardsOf dashboard)).
Proof.
  intros [[[dashcards tabLookup] tableIds] Hread].
  pose proof (requests_spec fetch dashboard_id dashboard) as Hreq.
  rewrite Hread in Hreq. rewrite Hreq. clear Hreq.
  apply readDashboard_spec in Hread as [-> Hids].
  unfold collectTableIds in Hids. unfold setFrom.
  revert Hids. generalize (@nil Z) as acc. revert tableIds.
  induction dashcards as [|dc dashcards IH]; intros tableIds acc; simpl.
  - by intros [= <-].
  - destruct (collectCard acc dc) as [acc'|] eqn:Hdc; [|done]. simpl.
    intros Hfold. apply IH in Hfold as ->.
    apply collectCard_fold in Hdc as ->. by rewrite foldl_app.
Qed.

Lemma requests_in_order_of_first_mention_witness :
  (get_dashboard_queries sampleFetch 1 sampleDashboard).1 = [2; 7].
Proof.
  rewrite requests_in_order_of_first_mention; [reflexivity|].
  vm_compute. by eexists.
Defined.
